(** * reliable-filereader: a model of [index.js]

    [reliableFileReader(method, blob, options)] wraps the callback interface of
    a FileReader in a promise and races it against a pluggable timer.  The
    development below embeds the module as a small state machine:

    - JavaScript values, [typeof], truthiness and string conversion, as far as
      the module inspects them;
    - the promise under construction, the closure variables [hasTimedOut] and
      [stopWaitingForTimeout], the host's table of active timers and the
      ordered list of effects the module causes;
    - the executor body, the timeout callback, the [onload] / [onerror]
      handlers and [onComplete], each written statement by statement in a
      state-and-exception monad;
    - the host, which delivers signals (the timer fires, the reader reports
      success or failure) by running the installed callback to completion.

    Modelling notes.
    - [index.js] never declares the identifier [fileReader]; it resolves in
      the enclosing scope.  The model takes that binding to be a reader object
      whose [abort] and read methods have the outcomes given by the [world].
      Where the host binds no such object, line 70 throws a [ReferenceError]
      once the timer is started; that run is not in the model.
    - Symbols and thenables are left out; objects convert to strings without
      running user code.  Reading a property of [FileReader.prototype] can
      throw, as the attributes of a host's prototype do.
    - What the caller's callables and the reader's methods do is not in the
      module: the [world] supplies the outcome of each such call as a function
      of the effects seen so far.  A strategy invokes the callback it was
      given from a later task, as [setTimeout] does.  A strategy that runs it
      during the call that hands it over has the promise rejected and the
      abort attempted before the handlers are installed and the read begun;
      that run is not in the model either, and what is proved of the effects
      that follow a settlement leaves room for it.
    - The host runs each callback to completion before the next one starts. *)

From stdpp Require Import base gmap strings list pretty.


(** ** Values *)

(** Numbers.  [Int z] is an integer of magnitude below 10^21, the range in
    which [Number.prototype.toString] prints plain decimal digits.  Every
    other finite number, a fraction or an integer from 10^21 on, is a
    [Finite] one, given by its sign and by the string the host prints for its
    magnitude, such as "0.5" or "1e+21". *)
Inductive number :=
| NaN
| Infinity (negative : bool)
| Int (z : Z)
| Finite (negative : bool) (magnitude : string).

(** Callables the model can tell apart: the module's own closures and
    whatever the caller passes in. *)
Inductive func :=
| Noop                         (* the default [() => {}] *)
| SimpleTimeout                (* the module's [simpleTimeout] *)
| StopWaiting (timeoutId : nat)   (* the closure [simpleTimeout] returns *)
| Foreign (src : string).      (* a caller's function, with its source text *)

Inductive value :=
| VUndefined
| VNull
| VBool (b : bool)
| VNumber (n : number)
| VString (s : string)
| VBlob (cls : string)          (* a Blob instance; [cls] is "Blob" or "File" *)
| VObject (str : string)        (* any other non-callable object and its string form *)
| VFunction (f : func)
| VError (name message : string).   (* [new Error(message)] and its kin *)

Global Instance number_eq_dec : EqDecision number.
Proof. solve_decision. Defined.
Global Instance func_eq_dec : EqDecision func.
Proof. solve_decision. Defined.
Global Instance value_eq_dec : EqDecision value.
Proof. solve_decision. Defined.

Definition typeof (v : value) : string :=
  match v with
  | VUndefined => "undefined"
  | VNull => "object"
  | VBool _ => "boolean"
  | VNumber _ => "number"
  | VString _ => "string"
  | VBlob _ | VObject _ | VError _ _ => "object"
  | VFunction _ => "function"
  end.

(** [v instanceof Blob] *)
Definition instanceof_Blob (v : value) : bool :=
  match v with VBlob _ => true | _ => false end.

(** ToBoolean, as used by [if (error)]. *)
Definition truthy (v : value) : bool :=
  match v with
  | VUndefined | VNull => false
  | VBool b => b
  | VNumber NaN => false
  | VNumber (Int z) => negb (z =? 0)%Z
  | VNumber (Infinity _) | VNumber (Finite _ _) => true
  | VString s => negb (String.eqb s "")
  | VBlob _ | VObject _ | VFunction _ | VError _ _ => true
  end.

Definition number_toString (n : number) : string :=
  match n with
  | NaN => "NaN"
  | Infinity false => "Infinity"
  | Infinity true => "-Infinity"
  | Int z => pretty z
  | Finite false magnitude => magnitude
  | Finite true magnitude => "-" +:+ magnitude
  end.

Definition func_toString (f : func) : string :=
  match f with
  | Noop => "() => {}"
  | SimpleTimeout =>
"function simpleTimeout(callback, timeoutMs) {
    const timeoutId = setTimeout(callback, timeoutMs);
    return stopWaiting;

    function stopWaiting() {
        clearTimeout(timeoutId);
    }
}"
  | StopWaiting _ =>
"function stopWaiting() {
        clearTimeout(timeoutId);
    }"
  | Foreign src => src
  end.

(** ToString, as performed by a template literal's [${...}]. *)
Definition toString (v : value) : string :=
  match v with
  | VUndefined => "undefined"
  | VNull => "null"
  | VBool true => "true"
  | VBool false => "false"
  | VNumber n => number_toString n
  | VString s => s
  | VBlob cls => "[object " +:+ cls +:+ "]"
  | VObject str => str
  | VFunction f => func_toString f
  | VError name message =>
      (* [Error.prototype.toString] *)
      if String.eqb name "" then message
      else if String.eqb message "" then name
      else name +:+ ": " +:+ message
  end.

(** [new Error(message)] *)
Definition Error (message : string) : value := VError "Error" message.

(** [s.includes(sub)] as a proposition. *)
Definition includes (s sub : string) : Prop :=
  ∃ pre post, s = pre +:+ sub +:+ post.

(** ** Completions, effects and the state of one request *)

Inductive completion (A : Type) :=
| Normal (a : A)
| Throw (e : value).
Arguments Normal {A} a.
Arguments Throw {A} e.

Inductive promise_state :=
| Pending
| Fulfilled (v : value)
| Rejected (e : value).

Global Instance promise_state_eq_dec : EqDecision promise_state.
Proof. solve_decision. Defined.

(** What the module does to the outside, in order of occurrence. *)
Inductive effect :=
| EFulfill (v : value)              (* the promise becomes fulfilled with [v] *)
| EReject (e : value)               (* the promise becomes rejected with [e] *)
| EStartTimer (timeoutMs : value)   (* [timeoutFunction(callback, timeoutMs)] *)
| ECancelTimer                      (* [stopWaitingForTimeout()] *)
| ERead (method blob : value)       (* [fileReader[method](blob)] *)
| EAbort                            (* [fileReader.abort()] *)
| ELateFinish (result error : value)   (* [onFinishAfterTimeout({ result, error })] *)
| EUncaught (e : value).            (* a callback ended by throwing [e] *)

Global Instance effect_eq_dec : EqDecision effect.
Proof. solve_decision. Defined.

Record state := mkState {
  hasTimedOut : bool;                (* [let hasTimedOut] *)
  stopWaitingForTimeout : value;     (* [let stopWaitingForTimeout] *)
  promise : promise_state;           (* the promise being constructed *)
  timers : gset nat;                 (* the host's active timers *)
  callbackHandedOver : bool;         (* [timeoutFunction] was given the timeout callback *)
  handlersInstalled : bool;          (* [fileReader.onload] and [.onerror] are assigned *)
  effects : list effect;
}.

(** The collaborators the module consumes but does not define.  Each outcome
    is a function of the effects so far, the call being made included. *)
Record world := mkWorld {
  FileReader_prototype_get : string → completion value;
    (* reading [FileReader.prototype[key]]: a method or a constant is
       returned, an accessor invoked on the prototype itself throws *)
  host_timers : gset nat;                      (* timers active when the call is made *)
  fileReader_read : list effect → completion value;     (* [fileReader[method](blob)] *)
  fileReader_abort : list effect → completion value;    (* [fileReader.abort()] *)
  caller_timeoutFunction : list effect → completion value;
  caller_stopWaiting : list effect → completion value;  (* the handle a caller's strategy returned *)
  caller_onFinishAfterTimeout : list effect → completion value;
}.

(** The value [FileReader.prototype[key]] reads as.  Where the read throws
    there is none and [VUndefined] stands in, so that
    [typeof (FileReader_prototype w key) = "function"] says that the read
    returns, and returns a function. *)
Definition FileReader_prototype (w : world) (key : string) : value :=
  match FileReader_prototype_get w key with
  | Normal v => v
  | Throw _ => VUndefined
  end.

(** ** A state-and-exception monad for statement sequences *)

Definition M (A : Type) : Type := state → completion A * state.

Global Instance M_ret : MRet M := λ A a s, (Normal a, s).

Global Instance M_bind : MBind M := λ A B k m s,
  match m s with
  | (Normal a, s') => k a s'
  | (Throw e, s') => (Throw e, s')
  end.

Definition ret {A} (a : A) : M A := mret a.

Definition throw {A} (e : value) : M A := λ s, (Throw e, s).

Definition get {A} (field : state → A) : M A := λ s, (Normal (field s), s).

Definition modify (f : state → state) : M unit := λ s, (Normal (), f s).

(** An expression the host evaluates without touching the request's state. *)
Definition evaluate {A} (outcome : completion A) : M A := λ s, (outcome, s).

(** A call into a collaborator: the world decides how it completes. *)
Definition external (outcome : list effect → completion value) : M value := λ s,
  (outcome (effects s), s).

(** Assignments to the parts of the state. *)

Definition log (ev : effect) (s : state) : state :=
  mkState (hasTimedOut s) (stopWaitingForTimeout s) (promise s) (timers s)
    (callbackHandedOver s) (handlersInstalled s) (effects s ++ [ev]).

Definition assign_hasTimedOut (b : bool) (s : state) : state :=
  mkState b (stopWaitingForTimeout s) (promise s) (timers s)
    (callbackHandedOver s) (handlersInstalled s) (effects s).

Definition assign_stopWaitingForTimeout (h : value) (s : state) : state :=
  mkState (hasTimedOut s) h (promise s) (timers s)
    (callbackHandedOver s) (handlersInstalled s) (effects s).

Definition assign_promise (p : promise_state) (s : state) : state :=
  mkState (hasTimedOut s) (stopWaitingForTimeout s) p (timers s)
    (callbackHandedOver s) (handlersInstalled s) (effects s).

Definition assign_timers (t : gset nat) (s : state) : state :=
  mkState (hasTimedOut s) (stopWaitingForTimeout s) (promise s) t
    (callbackHandedOver s) (handlersInstalled s) (effects s).

Definition assign_callbackHandedOver (b : bool) (s : state) : state :=
  mkState (hasTimedOut s) (stopWaitingForTimeout s) (promise s) (timers s)
    b (handlersInstalled s) (effects s).

Definition assign_handlersInstalled (b : bool) (s : state) : state :=
  mkState (hasTimedOut s) (stopWaitingForTimeout s) (promise s) (timers s)
    (callbackHandedOver s) b (effects s).

Definition emit (ev : effect) : M unit := modify (log ev).

(** ** The promise's resolving functions

    Only the first call of either settles the promise; later calls do
    nothing. *)

Definition settle (p : promise_state) (ev : effect) (s : state) : state :=
  match promise s with
  | Pending => log ev (assign_promise p s)
  | _ => s
  end.

Definition resolve (v : value) : M unit := modify (settle (Fulfilled v) (EFulfill v)).

Definition reject (e : value) : M unit := modify (settle (Rejected e) (EReject e)).

(** ** The host's timers *)

(** [setTimeout(callback, timeoutMs)]: a new active timer; its id is
    returned. *)
Definition setTimeout : M nat :=
  t ← get timers;
  let id := fresh t in
  modify (assign_timers ({[id]} ∪ t)) ;;
  ret id.

(** [clearTimeout(id)]: the timer is no longer active, if it was. *)
Definition clearTimeout (id : nat) : M unit :=
  t ← get timers;
  modify (assign_timers (t ∖ {[id]})).

(** ** [simpleTimeout] and the closure it returns *)

Definition stopWaiting (timeoutId : nat) : M value :=
  clearTimeout timeoutId ;;
  ret VUndefined.

Definition simpleTimeout : M value :=
  timeoutId ← setTimeout;
  ret (VFunction (StopWaiting timeoutId)).

(** ** [reliableFileReader] *)

(** The parameters once bound, defaults applied. *)
Record request := mkRequest {
  method : value;
  blob : value;
  timeoutMs : value;
  onFinishAfterTimeout : value;
  timeoutFunction : value;
}.

(** The third argument as the caller wrote it. *)
Record options := mkOptions {
  opt_timeoutMs : value;
  opt_onFinishAfterTimeout : value;
  opt_timeoutFunction : value;
}.

Inductive options_arg :=
| NoOptions                  (* omitted or [undefined]: the parameter defaults to [{}] *)
| NullOptions                (* [null], which cannot be destructured *)
| Options (o : options).     (* an object; an absent property reads as [VUndefined] *)

(** A default initializer [x = d] takes effect exactly when the property is
    [undefined]. *)
Definition or_default (v d : value) : value :=
  match v with VUndefined => d | _ => v end.

Definition bind_parameters (method blob : value) (o : options) : request :=
  mkRequest method blob
    (or_default (opt_timeoutMs o) (VNumber (Int 30000)))
    (or_default (opt_onFinishAfterTimeout o) (VFunction Noop))
    (or_default (opt_timeoutFunction o) (VFunction SimpleTimeout)).

Definition TypeError (message : string) : value := VError "TypeError" message.

(** [if (cond) { throw e; }] *)
Definition throw_if (cond : bool) (e : value) : M unit :=
  if cond then throw e else ret ().

(** [timeoutFunction(callback, timeoutMs)] *)
Definition call_timeoutFunction (w : world) (rq : request) : M value :=
  match timeoutFunction rq with
  | VFunction f =>
      emit (EStartTimer (timeoutMs rq)) ;;
      modify (assign_callbackHandedOver true) ;;
      match f with
      | SimpleTimeout => simpleTimeout
      | _ => external (caller_timeoutFunction w)
      end
  | _ => throw (TypeError "timeoutFunction is not a function")
  end.

(** [stopWaitingForTimeout()] *)
Definition call_stopWaitingForTimeout (w : world) : M value :=
  h ← get stopWaitingForTimeout;
  match h with
  | VFunction f =>
      emit ECancelTimer ;;
      match f with
      | StopWaiting timeoutId => stopWaiting timeoutId
      | _ => external (caller_stopWaiting w)
      end
  | _ => throw (TypeError "stopWaitingForTimeout is not a function")
  end.

(** [onFinishAfterTimeout({ result, error })] *)
Definition call_onFinishAfterTimeout (w : world) (rq : request)
    (result error : value) : M value :=
  match onFinishAfterTimeout rq with
  | VFunction f =>
      emit (ELateFinish result error) ;;
      match f with
      | Noop => ret VUndefined
      | _ => external (caller_onFinishAfterTimeout w)
      end
  | _ => throw (TypeError "onFinishAfterTimeout is not a function")
  end.

(** The callback handed to [timeoutFunction] (lines 61-67). *)
Definition timeoutCallback (w : world) (rq : request) : M value :=
  modify (assign_hasTimedOut true) ;;
  reject (Error ("FileReader " +:+ toString (method rq) +:+ " timed out after "
                 +:+ toString (timeoutMs rq) +:+ "ms")) ;;
  (* Stop attempting to read file *)
  emit EAbort ;;
  external (fileReader_abort w) ;;
  ret VUndefined.

(** [function onComplete({ result, error })] (lines 75-92). *)
Definition onComplete (w : world) (rq : request) (result error : value) : M value :=
  timedOut ← get hasTimedOut;
  if timedOut : bool then
    (* We're too late: timeout already rejected Promise. *)
    call_onFinishAfterTimeout w rq result error
  else
    (* Clean up timer *)
    call_stopWaitingForTimeout w ;;
    (* Good news, FileReader responded before it timed out *)
    (if truthy error then reject error else resolve result) ;;
    ret VUndefined.

(** [fileReader.onload = () => onComplete({ result: fileReader.result })];
    [result] is what [fileReader.result] holds when the handler runs. *)
Definition onload (w : world) (rq : request) (result : value) : M value :=
  onComplete w rq result VUndefined.

(** [fileReader.onerror = (error) => onComplete({ error })] *)
Definition onerror (w : world) (rq : request) (error : value) : M value :=
  onComplete w rq VUndefined error.

(** The executor passed to [new Promise] (lines 29-93). *)
Definition executor (w : world) (rq : request) : M value :=
  (* Validate blob *)
  throw_if (negb (instanceof_Blob (blob rq)))
    (Error ("Invalid blob passed to FileReader: " +:+ toString (blob rq))) ;;
  (* Validate method *)
  member ← evaluate (FileReader_prototype_get w (toString (method rq)));
  throw_if (negb (bool_decide (typeof member = "function")))
    (Error ("Invalid method passed to FileReader: " +:+ toString (method rq))) ;;
  (* Validate timeoutMs *)
  throw_if (negb (bool_decide (typeof (timeoutMs rq) = "number")))
    (Error ("Invalid timeoutMs passed to FileReader: " +:+ toString (timeoutMs rq))) ;;
  (* Validate onFinishAfterTimeout *)
  throw_if (negb (bool_decide (typeof (onFinishAfterTimeout rq) = "function")))
    (Error ("Invalid onFinishAfterTimeout passed to FileReader: "
            +:+ toString (onFinishAfterTimeout rq))) ;;
  (* Validate timeoutFunction *)
  throw_if (negb (bool_decide (typeof (timeoutFunction rq) = "function")))
    (Error ("Invalid timeoutFunction passed to FileReader: "
            +:+ toString (timeoutFunction rq))) ;;
  (* Reject early if FileReader takes longer than timeoutMs *)
  modify (assign_hasTimedOut false) ;;
  handle ← call_timeoutFunction w rq;
  modify (assign_stopWaitingForTimeout handle) ;;
  (* Process file *)
  modify (assign_handlersInstalled true) ;;
  emit (ERead (method rq) (blob rq)) ;;
  external (fileReader_read w).

(** [new Promise(executor)]: the executor runs at once on a pending promise;
    if it throws, the promise is rejected with what it threw. *)
Definition initial_state (w : world) : state :=
  mkState false VUndefined Pending (host_timers w) false false [].

Definition new_Promise (body : M value) (s : state) : state :=
  match body s with
  | (Normal _, s') => s'
  | (Throw e, s') => settle (Rejected e) (EReject e) s'
  end.

(** Destructuring the third parameter, [{ ... } = {}]. *)
Definition destructure (arg : options_arg) : completion options :=
  match arg with
  | NoOptions => Normal (mkOptions VUndefined VUndefined VUndefined)
  | NullOptions =>
      Throw (TypeError "Cannot destructure property 'timeoutMs' of 'object null' as it is null.")
  | Options o => Normal o
  end.

(** The state in which [new Promise(...)] leaves a request. *)
Definition start (w : world) (rq : request) : state :=
  new_Promise (executor w rq) (initial_state w).

(** The call itself: either it throws to the caller, or it returns the
    promise, whose state and surroundings are the resulting [state]. *)
Definition reliableFileReader (w : world) (method blob : value)
    (arg : options_arg) : completion state :=
  match destructure arg with
  | Throw e => Throw e
  | Normal o => Normal (start w (bind_parameters method blob o))
  end.

(** The parameters a call binds, when its third argument destructures. *)
Definition request_of (method blob : value) (arg : options_arg) : request :=
  match destructure arg with
  | Normal o => bind_parameters method blob o
  | Throw _ => bind_parameters method blob (mkOptions VUndefined VUndefined VUndefined)
  end.

(** ** The host: delivering signals *)

Inductive signal :=
| Timeout                   (* the timer strategy invokes the callback it was given *)
| OnLoad (result : value)   (* the reader fires [load]; [fileReader.result] is [result] *)
| OnError (error : value).  (* the reader fires [error] with this argument *)

(** A callback runs to completion; an exception that escapes it reaches the
    host, never the promise. *)
Definition run_callback (body : M value) (s : state) : state :=
  match body s with
  | (Normal _, s') => s'
  | (Throw e, s') => log (EUncaught e) s'
  end.

(** When the host's timer [id] elapses it leaves the table of active timers
    and its callback runs; a timer that is no longer active does nothing. *)
Definition fire_timer (id : nat) (callback : M value) (s : state) : state :=
  if bool_decide (id ∈ timers s)
  then run_callback (clearTimeout id ;; callback) s
  else s.

Definition deliver (w : world) (rq : request) (sig : signal) (s : state) : state :=
  match sig with
  | Timeout =>
      match timeoutFunction rq, stopWaitingForTimeout s with
      | VFunction SimpleTimeout, VFunction (StopWaiting id) =>
          fire_timer id (timeoutCallback w rq) s
      | VFunction SimpleTimeout, _ => s
      | _, _ =>
          if callbackHandedOver s then run_callback (timeoutCallback w rq) s else s
      end
  | OnLoad result =>
      if handlersInstalled s then run_callback (onload w rq result) s else s
  | OnError error =>
      if handlersInstalled s then run_callback (onerror w rq error) s else s
  end.

Fixpoint run (w : world) (rq : request) (sigs : list signal) (s : state) : state :=
  match sigs with
  | [] => s
  | sig :: rest => run w rq rest (deliver w rq sig s)
  end.

(** ** A concrete world for examples

    A host whose [FileReader.prototype] carries the five methods of the File
    API, the methods it inherits, the three state constants, and the
    attributes, which are accessors that throw when read on the prototype
    itself; no timer is active, the reader's calls return normally and so do
    the caller-supplied callables. *)

Definition native (name : string) : value :=
  VFunction (Foreign ("function " +:+ name +:+ "() { [native code] }")).

Definition browser_prototype (key : string) : completion value :=
  if bool_decide (key ∈ ["readAsArrayBuffer"; "readAsBinaryString";
                         "readAsDataURL"; "readAsText"; "abort";
                         "addEventListener"; "removeEventListener"; "dispatchEvent";
                         "constructor"; "hasOwnProperty"; "isPrototypeOf";
                         "propertyIsEnumerable"; "toLocaleString"; "toString";
                         "valueOf"])
  then Normal (native key)
  else if bool_decide (key ∈ ["readyState"; "result"; "error"; "onloadstart";
                              "onprogress"; "onload"; "onabort"; "onerror";
                              "onloadend"])
  then Throw (TypeError "Illegal invocation")
  else if bool_decide (key = "EMPTY") then Normal (VNumber (Int 0))
  else if bool_decide (key = "LOADING") then Normal (VNumber (Int 1))
  else if bool_decide (key = "DONE") then Normal (VNumber (Int 2))
  else Normal VUndefined.

Definition browser : world :=
  mkWorld browser_prototype ∅
    (λ _, Normal VUndefined) (λ _, Normal VUndefined)
    (λ _, Normal (VFunction (Foreign "() => cancel()")))
    (λ _, Normal VUndefined) (λ _, Normal VUndefined).


Definition someBlob : value := VBlob "Blob".
Definition readAsDataURL : value := VString "readAsDataURL".

(** ** Vocabulary for the properties *)

(** The five checks the executor makes before it starts anything. *)
Definition valid (w : world) (rq : request) : Prop :=
  instanceof_Blob (blob rq) = true ∧
  typeof (FileReader_prototype w (toString (method rq))) = "function" ∧
  typeof (timeoutMs rq) = "number" ∧
  typeof (onFinishAfterTimeout rq) = "function" ∧
  typeof (timeoutFunction rq) = "function".

(** The message of the error thrown for parameter [what] holding [v]. *)
Definition invalid_message (what : string) (v : value) : string :=
  "Invalid " +:+ what +:+ " passed to FileReader: " +:+ toString v.

(** The message of the timeout error (line 63). *)
Definition timeout_message (rq : request) : string :=
  "FileReader " +:+ toString (method rq) +:+ " timed out after "
  +:+ toString (timeoutMs rq) +:+ "ms".

(** A number greater than zero. *)
Definition positive_number (v : value) : bool :=
  match v with
  | VNumber (Int z) => (0 <? z)%Z
  | VNumber (Infinity negative) | VNumber (Finite negative _) => negb negative
  | _ => false
  end.

Definition is_settlement (ev : effect) : bool :=
  match ev with EFulfill _ | EReject _ => true | _ => false end.

Definition is_late_finish (ev : effect) : bool :=
  match ev with ELateFinish _ _ => true | _ => false end.

Definition is_cancel (ev : effect) : bool :=
  match ev with ECancelTimer => true | _ => false end.

(** Effects that can follow the settlement of the promise: anything but a
    second settlement and a start of the timer strategy.  The read is among
    them, for a caller's strategy that runs the timeout callback, and so
    rejects the promise, before the executor has reached the read. *)
Definition aftermath (ev : effect) : bool :=
  match ev with
  | EFulfill _ | EReject _ | EStartTimer _ => false
  | ELateFinish _ _ | ECancelTimer | EAbort | EUncaught _ | ERead _ _ => true
  end.

(** The settlements recorded in a trace, in order. *)
Definition settlements (trace : list effect) : list effect :=
  List.filter is_settlement trace.

(** What follows the first settlement in a trace. *)
Fixpoint after_settlement (trace : list effect) : list effect :=
  match trace with
  | [] => []
  | ev :: rest => if is_settlement ev then rest else after_settlement rest
  end.

(** How often the cancellation handle was invoked. *)
Definition cancellations (trace : list effect) : nat :=
  length (List.filter is_cancel trace).

(** How often the late-finish callback was invoked. *)
Definition late_finishes (trace : list effect) : nat :=
  length (List.filter is_late_finish trace).

Definition is_completion (sig : signal) : bool :=
  match sig with OnLoad _ | OnError _ => true | Timeout => false end.

(** How many completion notifications a signal sequence holds. *)
Definition completions (sigs : list signal) : nat :=
  length (List.filter is_completion sigs).

(** The settlement a promise state stands for. *)
Definition settlement_of (p : promise_state) : list effect :=
  match p with
  | Pending => []
  | Fulfilled v => [EFulfill v]
  | Rejected e => [EReject e]
  end.

(** The cancellation handle held in [s] can be called and returns. *)
Definition cancel_returns (w : world) (s : state) : Prop :=
  ∃ v s', call_stopWaitingForTimeout w s = (Normal v, s').

(** What the promise-and-trace pair of every reachable state satisfies. *)
Definition coherent (s : state) : Prop :=
  settlements (effects s) = settlement_of (promise s) ∧
  forallb aftermath (after_settlement (effects s)) = true ∧
  (hasTimedOut s = true → promise s ≠ Pending).

(** What a later state keeps of an earlier one: the closure's handle, the
    wiring, a raised [hasTimedOut], a settled promise, and the trace so far. *)
Definition extends (s s' : state) : Prop :=
  stopWaitingForTimeout s' = stopWaitingForTimeout s ∧
  handlersInstalled s' = handlersInstalled s ∧
  callbackHandedOver s' = callbackHandedOver s ∧
  (hasTimedOut s = true → hasTimedOut s' = true) ∧
  (promise s ≠ Pending → promise s' = promise s) ∧
  ∃ new, effects s' = effects s ++ new.

(** The state the timeout callback leaves, whatever [abort] does. *)
Definition timed_out (rq : request) (s : state) : state :=
  let te := Error (timeout_message rq) in
  log EAbort (settle (Rejected te) (EReject te) (assign_hasTimedOut true s)).

(** The checks in the order the executor makes them: the parameter's name,
    its value, and whether it passes.  A method whose lookup on the prototype
    throws does not pass; what the executor then throws is not the message
    for the method but what the lookup threw, see [validation_error]. *)
Definition checks (w : world) (rq : request) : list (string * value * bool) :=
  [("blob", blob rq, instanceof_Blob (blob rq));
   ("method", method rq,
    bool_decide (typeof (FileReader_prototype w (toString (method rq))) = "function"));
   ("timeoutMs", timeoutMs rq, bool_decide (typeof (timeoutMs rq) = "number"));
   ("onFinishAfterTimeout", onFinishAfterTimeout rq,
    bool_decide (typeof (onFinishAfterTimeout rq) = "function"));
   ("timeoutFunction", timeoutFunction rq,
    bool_decide (typeof (timeoutFunction rq) = "function"))].

Fixpoint first_failed (cs : list (string * value * bool)) : option (string * value) :=
  match cs with
  | [] => None
  | (what, v, ok) :: rest => if ok then first_failed rest else Some (what, v)
  end.

(** The first check a request fails, if any. *)
Definition first_failure (w : world) (rq : request) : option (string * value) :=
  first_failed (checks w rq).

(** What the validation part of the executor throws, if anything. *)
Definition validation_error (w : world) (rq : request) : option value :=
  if negb (instanceof_Blob (blob rq))
  then Some (Error (invalid_message "blob" (blob rq)))
  else
    match FileReader_prototype_get w (toString (method rq)) with
    | Throw e => Some e
    | Normal member =>
        if negb (bool_decide (typeof member = "function"))
        then Some (Error (invalid_message "method" (method rq)))
        else if negb (bool_decide (typeof (timeoutMs rq) = "number"))
        then Some (Error (invalid_message "timeoutMs" (timeoutMs rq)))
        else if negb (bool_decide (typeof (onFinishAfterTimeout rq) = "function"))
        then Some (Error (invalid_message "onFinishAfterTimeout" (onFinishAfterTimeout rq)))
        else if negb (bool_decide (typeof (timeoutFunction rq) = "function"))
        then Some (Error (invalid_message "timeoutFunction" (timeoutFunction rq)))
        else None
    end.

(** [s'] is [s] after one late-finish notification [ev] and nothing else
    but, possibly, an exception escaping the caller's callback. *)
Definition late_notified (s s' : state) (ev : effect) : Prop :=
  promise s' = promise s ∧
  (∃ tail, effects s' = effects s ++ ev :: tail ∧
           (tail = [] ∨ ∃ e, tail = [EUncaught e])) ∧
  late_finishes (effects s') = S (late_finishes (effects s)) ∧
  cancellations (effects s') = cancellations (effects s) ∧
  timers s' = timers s.

Definition callable (v : value) : bool :=
  match v with VFunction _ => true | _ => false end.

(** How many calls of the cancellation handle a signal causes in [s]. *)
Definition cancels (sig : signal) (s : state) : nat :=
  if is_completion sig && handlersInstalled s && negb (hasTimedOut s)
     && callable (stopWaitingForTimeout s)
  then 1 else 0.

(** Requests used in the examples. *)
Definition default_request : request :=
  request_of readAsDataURL someBlob NoOptions.

Definition custom_strategy : options :=
  mkOptions (VNumber (Int 10000)) (VFunction (Foreign "(late) => report(late)"))
    (VFunction (Foreign "(callback, ms) => whileTabVisibleTimeout(callback, ms)")).

Definition custom_request : request :=
  request_of readAsDataURL someBlob (Options custom_strategy).

(** ** Vocabulary for the further properties *)

(** How many effects of a trace satisfy [p]. *)
Definition tally (p : effect → bool) (trace : list effect) : nat :=
  length (List.filter p trace).

Definition is_read (ev : effect) : bool :=
  match ev with ERead _ _ => true | _ => false end.

Definition is_timer_start (ev : effect) : bool :=
  match ev with EStartTimer _ => true | _ => false end.

Definition is_abort (ev : effect) : bool :=
  match ev with EAbort => true | _ => false end.

(** Effects a callback can cause, as opposed to those of the executor. *)
Definition from_callback (ev : effect) : bool :=
  negb (is_read ev || is_timer_start ev).

(** Effects of a completion handled before, and after, the timeout. *)
Definition early_effect (ev : effect) : bool :=
  match ev with
  | ECancelTimer | EFulfill _ | EReject _ | EUncaught _ => true
  | _ => false
  end.

Definition late_effect (ev : effect) : bool :=
  match ev with ELateFinish _ _ | EUncaught _ => true | _ => false end.

(** [s'] has the trace of [s] followed by effects that all satisfy [q]. *)
Definition delta (q : effect → bool) (s s' : state) : Prop :=
  ∃ new, effects s' = effects s ++ new ∧ forallb q new = true.

(** The settlement a signal brings about when it is the first to arrive. *)
Definition outcome_of (rq : request) (sig : signal) : promise_state :=
  match sig with
  | Timeout => Rejected (Error (timeout_message rq))
  | OnLoad result => Fulfilled result
  | OnError error => if truthy error then Rejected error else Fulfilled VUndefined
  end.

(** [hasTimedOut] is set exactly when an abort was attempted, and the
    late-finish callback is not called before that. *)
Definition timely (s : state) : Prop :=
  (hasTimedOut s = true ↔ 0 < tally is_abort (effects s)) ∧
  (hasTimedOut s = false → late_finishes (effects s) = 0).


Definition browser_no_handle : world :=
  mkWorld browser_prototype ∅
    (λ _, Normal VUndefined) (λ _, Normal VUndefined)
    (λ _, Normal VUndefined)
    (λ _, Normal VUndefined) (λ _, Normal VUndefined).

Definition browser_busy_reader : world :=
  mkWorld browser_prototype ∅
    (λ _, Throw (VError "InvalidStateError" "the reader is busy reading"))
    (λ _, Normal VUndefined)
    (λ _, Normal (VFunction (Foreign "() => cancel()")))
    (λ _, Normal VUndefined) (λ _, Normal VUndefined).

(** Unfolding the statement sequences down to the state they produce. *)
Ltac unfold_M :=
  cbv [executor timeoutCallback onComplete onload onerror
       call_timeoutFunction call_stopWaitingForTimeout call_onFinishAfterTimeout
       simpleTimeout stopWaiting setTimeout clearTimeout
       resolve reject throw_if throw external evaluate emit get modify ret
       mbind mret M_bind M_ret].

(** * Properties *)

(** ** Traces *)

Lemma settlements_app l n : settlements (l ++ n) = settlements l ++ settlements n.
Proof. apply List.filter_app. Qed.

Lemma after_settlement_unsettled l n :
  settlements l = [] → after_settlement (l ++ n) = after_settlement n.
Proof.
  induction l as [|ev l IH]; simpl; [done|].
  unfold settlements in *. simpl. destruct (is_settlement ev); [done|]. auto.
Qed.

Lemma after_settlement_settled l n :
  settlements l ≠ [] → after_settlement (l ++ n) = after_settlement l ++ n.
Proof.
  induction l as [|ev l IH]; simpl; [done|].
  unfold settlements in *. simpl. destruct (is_settlement ev); [done|]. auto.
Qed.

(** ** Timer tables *)

Lemma not_elem_of_cleared (id : nat) (t : gset nat) : id ∉ t ∖ {[id]}.
Proof. rewrite elem_of_difference, elem_of_singleton. by intros [_ []]. Qed.

Lemma cleared_inactive (id : nat) (t : gset nat) : id ∉ t → t ∖ {[id]} = t.
Proof. intros H. apply difference_disjoint_L. by apply disjoint_singleton_r. Qed.

Lemma elem_of_added (id : nat) (t : gset nat) : id ∈ {[id]} ∪ t.
Proof. apply elem_of_union_l. by apply elem_of_singleton. Qed.

(** ** What each piece of the module does to the state *)

Lemma timeoutCallback_eq w rq s :
  timeoutCallback w rq s =
  (match fileReader_abort w (effects (timed_out rq s)) with
   | Normal _ => Normal VUndefined
   | Throw e => Throw e
   end, timed_out rq s).
Proof. unfold_M. unfold timed_out. simpl. by destruct (fileReader_abort w _). Qed.

Lemma onComplete_late w rq result error s :
  hasTimedOut s = true →
  onComplete w rq result error s = call_onFinishAfterTimeout w rq result error s.
Proof. intros H. unfold onComplete. unfold_M. by rewrite H. Qed.

Lemma call_onFinishAfterTimeout_eq w rq result error s :
  typeof (onFinishAfterTimeout rq) = "function" →
  ∃ c, call_onFinishAfterTimeout w rq result error s
       = (c, log (ELateFinish result error) s).
Proof.
  intros H. unfold_M. destruct (onFinishAfterTimeout rq) as [| | | | | | |f|]; try done.
  destruct f; eauto.
Qed.

Lemma call_stopWaitingForTimeout_eq w s :
  call_stopWaitingForTimeout w s =
  match stopWaitingForTimeout s with
  | VFunction (StopWaiting id) =>
      (Normal VUndefined, assign_timers (timers s ∖ {[id]}) (log ECancelTimer s))
  | VFunction _ => (caller_stopWaiting w (effects s ++ [ECancelTimer]), log ECancelTimer s)
  | _ => (Throw (TypeError "stopWaitingForTimeout is not a function"), s)
  end.
Proof.
  unfold_M. destruct (stopWaitingForTimeout s) as [| | | | | | |f|]; try done.
  destruct f; try done.
Qed.

Lemma onComplete_early w rq result error s :
  hasTimedOut s = false →
  onComplete w rq result error s =
  match call_stopWaitingForTimeout w s with
  | (Normal _, s') =>
      (Normal VUndefined,
       if truthy error then settle (Rejected error) (EReject error) s'
       else settle (Fulfilled result) (EFulfill result) s')
  | (Throw e, s') => (Throw e, s')
  end.
Proof.
  intros H. unfold onComplete. cbv [mbind M_bind get]. rewrite H.
  destruct (call_stopWaitingForTimeout w s) as [[v|e] s']; [|done].
  by destruct (truthy error).
Qed.

Lemma call_timeoutFunction_eq w rq s :
  typeof (timeoutFunction rq) = "function" →
  call_timeoutFunction w rq s =
  let s1 := assign_callbackHandedOver true (log (EStartTimer (timeoutMs rq)) s) in
  match timeoutFunction rq with
  | VFunction SimpleTimeout =>
      (Normal (VFunction (StopWaiting (fresh (timers s)))),
       assign_timers ({[fresh (timers s)]} ∪ timers s) s1)
  | _ => (caller_timeoutFunction w (effects s1), s1)
  end.
Proof.
  intros H. unfold_M. destruct (timeoutFunction rq) as [| | | | | | |f|]; try done.
  by destruct f.
Qed.

Lemma prototype_function w key :
  typeof (FileReader_prototype w key) = "function" →
  FileReader_prototype_get w key = Normal (FileReader_prototype w key).
Proof. unfold FileReader_prototype. by destruct (FileReader_prototype_get w key). Qed.

Lemma executor_valid w rq s :
  valid w rq →
  executor w rq s =
  match call_timeoutFunction w rq (assign_hasTimedOut false s) with
  | (Normal handle, s1) =>
      let s2 := log (ERead (method rq) (blob rq))
                  (assign_handlersInstalled true
                     (assign_stopWaitingForTimeout handle s1)) in
      (fileReader_read w (effects s2), s2)
  | (Throw e, s1) => (Throw e, s1)
  end.
Proof.
  intros (Hb & Hm & Ht & Ho & Hf). unfold executor, throw_if, evaluate.
  rewrite Hb, (prototype_function _ _ Hm), Ht, Ho, Hf. simpl.
  cbv [mbind M_bind ret mret M_ret modify emit external].
  rewrite Hm. simpl.
  by destruct (call_timeoutFunction w rq _) as [[h|e] s1].
Qed.


Lemma validation_error_valid w rq : validation_error w rq = None ↔ valid w rq.
Proof.
  unfold validation_error, valid, FileReader_prototype.
  destruct (instanceof_Blob (blob rq)); simpl; [|by split; [|intros []]].
  destruct (FileReader_prototype_get w _) as [member|e]; simpl;
    [|split; [done|by intros (_ & ? & _)]].
  repeat (case_bool_decide; simpl; [|split; [done|tauto]]). tauto.
Qed.

(** Where reading the method off the prototype returns, the error is the
    descriptive one of the first failing check. *)
Lemma validation_error_descriptive w rq what v :
  first_failure w rq = Some (what, v) →
  (instanceof_Blob (blob rq) = true →
   ∃ member, FileReader_prototype_get w (toString (method rq)) = Normal member) →
  validation_error w rq = Some (Error (invalid_message what v)).
Proof.
  unfold first_failure, validation_error. simpl. unfold FileReader_prototype.
  destruct (instanceof_Blob (blob rq)); simpl; [|by intros [= <- <-]].
  intros Hf [member Hm]; [done|]. revert Hf. rewrite Hm.
  repeat (case_bool_decide; simpl; [|by intros [= <- <-]]). done.
Qed.

Lemma executor_invalid w rq s e :
  validation_error w rq = Some e →
  executor w rq s = (Throw e, s).
Proof.
  unfold validation_error, executor, throw_if, evaluate.
  cbv [mbind M_bind throw ret mret M_ret].
  destruct (instanceof_Blob (blob rq)); simpl; [|by intros [= <-]].
  destruct (FileReader_prototype_get w _) as [member|e']; [|by intros [= <-]].
  repeat (case_bool_decide; simpl; [|by intros [= <-]]). done.
Qed.

Lemma reliableFileReader_start w method blob arg s0 :
  reliableFileReader w method blob arg = Normal s0 →
  s0 = start w (request_of method blob arg).
Proof.
  unfold reliableFileReader, request_of. destruct (destructure arg); congruence.
Qed.

(** The state a valid request starts in, by strategy and outcome. *)
Lemma start_valid w rq :
  valid w rq →
  let s1 := assign_callbackHandedOver true
              (log (EStartTimer (timeoutMs rq))
                 (assign_hasTimedOut false (initial_state w))) in
  let go handle s1' :=
    let s2 := log (ERead (method rq) (blob rq))
                (assign_handlersInstalled true
                   (assign_stopWaitingForTimeout handle s1')) in
    match fileReader_read w (effects s2) with
    | Normal _ => s2
    | Throw e => settle (Rejected e) (EReject e) s2
    end in
  start w rq =
  match timeoutFunction rq with
  | VFunction SimpleTimeout =>
      let id := fresh (host_timers w) in
      go (VFunction (StopWaiting id)) (assign_timers ({[id]} ∪ host_timers w) s1)
  | _ =>
      match caller_timeoutFunction w (effects s1) with
      | Normal handle => go handle s1
      | Throw e => settle (Rejected e) (EReject e) s1
      end
  end.
Proof.
  intros Hv. unfold start, new_Promise. rewrite executor_valid by done.
  rewrite call_timeoutFunction_eq by apply Hv.
  destruct (timeoutFunction rq) as [| | | | | | |[]|]; simpl;
    repeat case_match; simplify_eq; done.
Qed.

Lemma start_invalid w rq e :
  validation_error w rq = Some e →
  start w rq = settle (Rejected e) (EReject e) (initial_state w).
Proof.
  intros Hf. unfold start, new_Promise. by rewrite (executor_invalid _ _ _ _ Hf).
Qed.

(** The rejection by a failed check, where the method can be read off the
    prototype. *)
Lemma start_descriptive w rq what v :
  first_failure w rq = Some (what, v) →
  (instanceof_Blob (blob rq) = true →
   ∃ member, FileReader_prototype_get w (toString (method rq)) = Normal member) →
  start w rq = settle (Rejected (Error (invalid_message what v)))
                 (EReject (Error (invalid_message what v))) (initial_state w).
Proof.
  intros Hf Hm. apply start_invalid. by apply validation_error_descriptive.
Qed.

(** A request either passes every check or is stopped by one. *)
Lemma valid_or_failure w rq :
  valid w rq ∨ ∃ e, validation_error w rq = Some e.
Proof.
  destruct (validation_error w rq) as [e|] eqn:Hf; [right; eauto|].
  left. by apply validation_error_valid.
Qed.

(** ** Coherence of promise and trace *)

Create HintDb arbiter.

Lemma coherent_log ev s : coherent s → aftermath ev = true → coherent (log ev s).
Proof.
  intros (Hs & Ha & Ht) Hev. unfold coherent. simpl.
  assert (settlements [ev] = []) as Hn by (by destruct ev).
  rewrite settlements_app, Hn, app_nil_r. split_and!; [done| |done].
  destruct (decide (settlements (effects s) = [])) as [He|He].
  - rewrite after_settlement_unsettled by done. by destruct ev.
  - rewrite after_settlement_settled, forallb_app, Ha by done. simpl. by rewrite Hev.
Qed.

Lemma coherent_settle p ev s :
  coherent s → settlement_of p = [ev] → coherent (settle p ev s).
Proof.
  intros (Hs & Ha & Ht) Hp. unfold settle.
  destruct (promise s) eqn:Hps; [|by split_and!; rewrite ?Hps..].
  assert (settlements [ev] = [ev] ∧ is_settlement ev = true) as [Hn Hi].
  { destruct p; simplify_eq/=; done. }
  unfold coherent. simpl. rewrite settlements_app, Hs, Hn, Hp.
  split_and!; [done| |by destruct p].
  rewrite after_settlement_unsettled by done. simpl. by rewrite Hi.
Qed.

Lemma coherent_timers t s : coherent s → coherent (assign_timers t s).
Proof. done. Qed.

Lemma coherent_flagged e s :
  coherent s → coherent (settle (Rejected e) (EReject e) (assign_hasTimedOut true s)).
Proof.
  intros Hc. destruct s as [hto h p t cho hi tr].
  pose proof (coherent_settle (Rejected e) (EReject e) _ Hc eq_refl) as Hs.
  destruct Hc as (H1 & H2 & H3). revert Hs. unfold settle. simpl in *.
  destruct p; intros (? & ? & ?); split_and!; done.
Qed.

Lemma coherent_timed_out rq s : coherent s → coherent (timed_out rq s).
Proof. intros Hc. apply coherent_log; [|done]. by apply coherent_flagged. Qed.

#[local] Hint Resolve coherent_log coherent_settle coherent_timers
  coherent_timed_out : arbiter.
#[local] Hint Extern 1 (aftermath _ = true) => reflexivity : arbiter.
#[local] Hint Extern 1 (settlement_of _ = _) => reflexivity : arbiter.

Lemma run_callback_coherent body s :
  (∀ c s', body s = (c, s') → coherent s') → coherent (run_callback body s).
Proof.
  intros H. unfold run_callback. destruct (body s) as [[v|e] s'] eqn:Hb.
  - eauto.
  - apply coherent_log; eauto.
Qed.

Section Coherence.
Context (w : world) (rq : request).

Lemma timeoutCallback_coherent s c s' :
  coherent s → timeoutCallback w rq s = (c, s') → coherent s'.
Proof.
  intros Hc. rewrite timeoutCallback_eq. intros [= _ <-]. auto with arbiter.
Qed.

Lemma call_stopWaitingForTimeout_coherent s c s' :
  coherent s → call_stopWaitingForTimeout w s = (c, s') → coherent s'.
Proof.
  intros Hc. rewrite call_stopWaitingForTimeout_eq.
  destruct (stopWaitingForTimeout s) as [| | | | | | |f|]; try (by intros [= _ <-]).
  destruct f; intros [= _ <-]; auto with arbiter.
Qed.

Lemma call_onFinishAfterTimeout_coherent result error s c s' :
  coherent s → call_onFinishAfterTimeout w rq result error s = (c, s') → coherent s'.
Proof.
  intros Hc. unfold_M.
  destruct (onFinishAfterTimeout rq) as [| | | | | | |f|]; try (by intros [= _ <-]).
  destruct f; intros [= _ <-]; auto with arbiter.
Qed.

Lemma onComplete_coherent result error s c s' :
  coherent s → onComplete w rq result error s = (c, s') → coherent s'.
Proof.
  intros Hc. destruct (hasTimedOut s) eqn:Ht.
  - rewrite onComplete_late by done. by apply call_onFinishAfterTimeout_coherent.
  - rewrite onComplete_early by done.
    destruct (call_stopWaitingForTimeout w s) as [[v|e] s1] eqn:Hs;
      apply call_stopWaitingForTimeout_coherent in Hs; [|done| |done].
    + intros [= _ <-]. destruct (truthy error); auto with arbiter.
    + by intros [= _ <-].
Qed.

Lemma deliver_coherent sig s : coherent s → coherent (deliver w rq sig s).
Proof.
  intros Hc. destruct sig; simpl.
  - assert (coherent (run_callback (timeoutCallback w rq) s)) as Hrun.
    { apply run_callback_coherent. intros c s'. by apply timeoutCallback_coherent. }
    assert (∀ id, coherent (fire_timer id (timeoutCallback w rq) s)) as Hfire.
    { intros id. unfold fire_timer. case_bool_decide; [|done].
      apply run_callback_coherent. intros c s'. cbv [mbind M_bind clearTimeout get modify].
      apply timeoutCallback_coherent. by apply coherent_timers. }
    repeat case_match; done.
  - case_match; [|done]. apply run_callback_coherent. intros c s'.
    by apply onComplete_coherent.
  - case_match; [|done]. apply run_callback_coherent. intros c s'.
    by apply onComplete_coherent.
Qed.

Lemma start_coherent : coherent (start w rq).
Proof.
  destruct (valid_or_failure w rq) as [Hv|(err & Hf)].
  - rewrite start_valid by done. simpl.
    repeat case_match; try apply coherent_settle; done.
  - rewrite (start_invalid _ _ _ Hf). by apply coherent_settle.
Qed.

Lemma run_coherent sigs s : coherent s → coherent (run w rq sigs s).
Proof.
  revert s. induction sigs as [|sig sigs IH]; intros s Hc; simpl; [done|].
  apply IH. by apply deliver_coherent.
Qed.

End Coherence.

(** ** What later states keep *)

Lemma extends_refl s : extends s s.
Proof. split_and!; try done. exists []. by rewrite app_nil_r. Qed.

Lemma extends_trans s1 s2 s3 : extends s1 s2 → extends s2 s3 → extends s1 s3.
Proof.
  intros (Ha & Hb & Hc & Hd & He & n & Hn) (Ha' & Hb' & Hc' & Hd' & He' & n' & Hn').
  split_and!; try congruence; try tauto.
  - intros Hp. rewrite He', He; [done|done|]. by rewrite He.
  - exists (n ++ n'). by rewrite Hn', Hn, app_assoc.
Qed.

Lemma extends_log ev s : extends s (log ev s).
Proof. split_and!; try done. by exists [ev]. Qed.

Lemma extends_timers t s : extends s (assign_timers t s).
Proof. split_and!; try done. exists []. simpl. by rewrite app_nil_r. Qed.

Lemma extends_logged_timers t ev s : extends s (assign_timers t (log ev s)).
Proof. eapply extends_trans; [apply extends_log|apply extends_timers]. Qed.

Lemma extends_settle p ev s : extends s (settle p ev s).
Proof.
  unfold settle. destruct (promise s) eqn:Hp; try apply extends_refl.
  split_and!; try done. by exists [ev].
Qed.

Lemma extends_timed_out rq s : extends s (timed_out rq s).
Proof.
  unfold timed_out. eapply extends_trans; [|apply extends_log].
  eapply extends_trans; [|apply extends_settle].
  split_and!; try done. exists []. simpl. by rewrite app_nil_r.
Qed.

#[local] Hint Resolve extends_refl extends_log extends_timers extends_settle
  extends_timed_out : arbiter.

Lemma run_callback_extends body s :
  (∀ c s', body s = (c, s') → extends s s') → extends s (run_callback body s).
Proof.
  intros H. unfold run_callback. destruct (body s) as [[v|e] s'] eqn:Hb; [eauto|].
  eapply extends_trans; [eauto|apply extends_log].
Qed.

Section Extension.
Context (w : world) (rq : request).

Lemma timeoutCallback_extends s c s' :
  timeoutCallback w rq s = (c, s') → extends s s'.
Proof. rewrite timeoutCallback_eq. intros [= _ <-]. auto with arbiter. Qed.

Lemma call_stopWaitingForTimeout_extends s c s' :
  call_stopWaitingForTimeout w s = (c, s') → extends s s'.
Proof.
  rewrite call_stopWaitingForTimeout_eq.
  destruct (stopWaitingForTimeout s) as [| | | | | | |f|];
    try (intros [= _ <-]; auto with arbiter).
  destruct f; intros [= _ <-]; first [apply extends_logged_timers | apply extends_log].
Qed.

Lemma call_onFinishAfterTimeout_extends result error s c s' :
  call_onFinishAfterTimeout w rq result error s = (c, s') → extends s s'.
Proof.
  unfold_M. destruct (onFinishAfterTimeout rq) as [| | | | | | |f|];
    try (intros [= _ <-]; auto with arbiter).
  destruct f; intros [= _ <-]; auto with arbiter.
Qed.

Lemma onComplete_extends result error s c s' :
  onComplete w rq result error s = (c, s') → extends s s'.
Proof.
  destruct (hasTimedOut s) eqn:Ht.
  - rewrite onComplete_late by done. apply call_onFinishAfterTimeout_extends.
  - rewrite onComplete_early by done.
    destruct (call_stopWaitingForTimeout w s) as [[v|e] s1] eqn:Hs;
      apply call_stopWaitingForTimeout_extends in Hs; intros [= _ <-]; [|done].
    eapply extends_trans; [done|]. destruct (truthy error); auto with arbiter.
Qed.

Lemma deliver_extends sig s : extends s (deliver w rq sig s).
Proof.
  destruct sig; simpl.
  - assert (extends s (run_callback (timeoutCallback w rq) s)) as Hrun.
    { apply run_callback_extends. intros c s'. apply timeoutCallback_extends. }
    assert (∀ id, extends s (fire_timer id (timeoutCallback w rq) s)) as Hfire.
    { intros id. unfold fire_timer. case_bool_decide; [|apply extends_refl].
      apply run_callback_extends. intros c s'. cbv [mbind M_bind clearTimeout get modify].
      intros Hcb%timeoutCallback_extends.
      eapply extends_trans; [apply extends_timers|done]. }
    repeat case_match; try done; apply extends_refl.
  - case_match; [|apply extends_refl]. apply run_callback_extends. intros c s'.
    apply onComplete_extends.
  - case_match; [|apply extends_refl]. apply run_callback_extends. intros c s'.
    apply onComplete_extends.
Qed.

Lemma run_extends sigs s : extends s (run w rq sigs s).
Proof.
  revert s. induction sigs as [|sig sigs IH]; intros s; simpl; [apply extends_refl|].
  eapply extends_trans; [apply deliver_extends|apply IH].
Qed.

End Extension.

(** ** The state right after the call *)

(** A request whose promise is still pending after the call passed every
    check, handed its callback to the strategy and started the read. *)
Lemma start_pending w rq :
  promise (start w rq) = Pending →
  valid w rq ∧
  hasTimedOut (start w rq) = false ∧
  handlersInstalled (start w rq) = true ∧
  callbackHandedOver (start w rq) = true ∧
  effects (start w rq) = [EStartTimer (timeoutMs rq); ERead (method rq) (blob rq)] ∧
  (timeoutFunction rq = VFunction SimpleTimeout →
     ∃ id, stopWaitingForTimeout (start w rq) = VFunction (StopWaiting id) ∧
           id ∈ timers (start w rq)).
Proof.
  destruct (valid_or_failure w rq) as [Hv|(err & Hf)].
  - rewrite start_valid by done. simpl.
    destruct (timeoutFunction rq) as [| | | | | | |[]|]; simpl;
      repeat case_match; simpl; intros; simplify_eq; split_and!; try done.
    all: try (intros _; eexists; split; [done|apply elem_of_added]).
  - by rewrite (start_invalid _ _ _ Hf).
Qed.

(** A request that failed a check is left with nothing installed. *)
Lemma start_wired w rq :
  (handlersInstalled (start w rq) = true ∨ callbackHandedOver (start w rq) = true) →
  valid w rq.
Proof.
  destruct (valid_or_failure w rq) as [Hv|(err & Hf)]; [done|].
  rewrite (start_invalid _ _ _ Hf). simpl. by intros [|].
Qed.

Lemma start_valid_handed_over w rq :
  valid w rq → callbackHandedOver (start w rq) = true.
Proof.
  intros Hv. rewrite start_valid by done. simpl.
  unfold settle. repeat case_match; done.
Qed.

(** ** Validation *)

Lemma includes_intro pre sub post : includes (pre +:+ sub +:+ post) sub.
Proof. by exists pre, post. Qed.





(** C8, as the code has it: the executor goes on to start the timer only if
    [typeof timeoutMs] is ["number"]; a value of any other type is rejected
    with the timeoutMs message once source and method are in order; and every
    number, whatever its sign, is let through when the other four checks
    pass. *)
Theorem validation_checks_the_type_of_timeoutMs w m b arg s0 :
  reliableFileReader w m b arg = Normal s0 →
  let rq := request_of m b arg in
  (callbackHandedOver s0 = true → typeof (timeoutMs rq) = "number") ∧
  (typeof (timeoutMs rq) ≠ "number" →
   instanceof_Blob (blob rq) = true →
   typeof (FileReader_prototype w (toString (method rq))) = "function" →
   promise s0 = Rejected (Error (invalid_message "timeoutMs" (timeoutMs rq))) ∧
   effects s0 = [EReject (Error (invalid_message "timeoutMs" (timeoutMs rq)))]) ∧
  (∀ n, timeoutMs rq = VNumber n →
   instanceof_Blob (blob rq) = true →
   typeof (FileReader_prototype w (toString (method rq))) = "function" →
   typeof (onFinishAfterTimeout rq) = "function" →
   typeof (timeoutFunction rq) = "function" →
   callbackHandedOver s0 = true ∧
   ∃ rest, effects s0 = EStartTimer (VNumber n) :: rest).
Proof.
  intros Hcall rq. apply reliableFileReader_start in Hcall as ->. fold rq.
  split_and!.
  - intros Hh. by eapply start_wired; right.
  - intros Ht Hb Hm.
    assert (first_failure w rq = Some ("timeoutMs", timeoutMs rq)) as Hf.
    { unfold first_failure. simpl. rewrite Hb.
      rewrite bool_decide_eq_true_2 by done. by rewrite bool_decide_eq_false_2. }
    apply validation_error_descriptive in Hf;
      [|intros _; eexists; by apply prototype_function].
    by rewrite (start_invalid _ _ _ Hf).
  - intros n Hn Hb Hm Ho Hf.
    assert (valid w rq) as Hv by (split_and!; try done; by rewrite Hn).
    split; [by apply start_valid_handed_over|].
    rewrite start_valid by done. rewrite Hn. simpl.
    unfold settle. repeat case_match; simpl; eauto.
Qed.

Lemma validation_checks_the_type_of_timeoutMs_witness :
  ∃ s0, reliableFileReader browser readAsDataURL someBlob NoOptions = Normal s0 ∧
  let rq := request_of readAsDataURL someBlob NoOptions in
  (callbackHandedOver s0 = true → typeof (timeoutMs rq) = "number") ∧
  (typeof (timeoutMs rq) ≠ "number" →
   instanceof_Blob (blob rq) = true →
   typeof (FileReader_prototype browser (toString (method rq))) = "function" →
   promise s0 = Rejected (Error (invalid_message "timeoutMs" (timeoutMs rq))) ∧
   effects s0 = [EReject (Error (invalid_message "timeoutMs" (timeoutMs rq)))]) ∧
  (∀ n, timeoutMs rq = VNumber n →
   instanceof_Blob (blob rq) = true →
   typeof (FileReader_prototype browser (toString (method rq))) = "function" →
   typeof (onFinishAfterTimeout rq) = "function" →
   typeof (timeoutFunction rq) = "function" →
   callbackHandedOver s0 = true ∧
   ∃ rest, effects s0 = EStartTimer (VNumber n) :: rest).
Proof.
  eexists. split; [reflexivity|].
  apply (validation_checks_the_type_of_timeoutMs browser readAsDataURL someBlob NoOptions).
  reflexivity.
Defined.

(** C8 as stated fails: a negative timeoutMs passes validation; the timer is
    started with it and the read begins. *)
Lemma negative_timeoutMs_passes_validation :
  positive_number
    (timeoutMs (request_of readAsDataURL someBlob
                  (Options (mkOptions (VNumber (Int (-5))) VUndefined VUndefined))))
  = false ∧
  ∃ s0, reliableFileReader browser readAsDataURL someBlob
          (Options (mkOptions (VNumber (Int (-5))) VUndefined VUndefined)) = Normal s0 ∧
        promise s0 = Pending ∧
        effects s0 = [EStartTimer (VNumber (Int (-5))); ERead readAsDataURL someBlob].
Proof.
  split; [reflexivity|]. eexists. split; [reflexivity|]. split; reflexivity.
Qed.

(** ** The timeout path *)

Lemma append_assoc (a b c : string) : (a +:+ b) +:+ c = a +:+ b +:+ c.
Proof.
  induction a as [|x a IH]; [reflexivity|]. exact (f_equal (String x) IH).
Qed.

Lemma timeout_message_includes_method rq :
  includes (timeout_message rq) (toString (method rq)).
Proof. apply includes_intro. Qed.

Lemma timeout_message_includes_timeoutMs rq :
  includes (timeout_message rq) (toString (timeoutMs rq)).
Proof.
  exists ("FileReader " +:+ toString (method rq) +:+ " timed out after "), "ms".
  unfold timeout_message. by rewrite !append_assoc.
Qed.

Lemma run_timeoutCallback w rq s :
  run_callback (timeoutCallback w rq) s =
  match fileReader_abort w (effects (timed_out rq s)) with
  | Normal _ => timed_out rq s
  | Throw e => log (EUncaught e) (timed_out rq s)
  end.
Proof.
  unfold run_callback. rewrite timeoutCallback_eq.
  by destruct (fileReader_abort w _).
Qed.

Lemma timed_out_pending rq s :
  promise s = Pending →
  hasTimedOut (timed_out rq s) = true ∧
  promise (timed_out rq s) = Rejected (Error (timeout_message rq)) ∧
  effects (timed_out rq s) = effects s ++ [EReject (Error (timeout_message rq)); EAbort].
Proof.
  intros Hp. unfold timed_out, settle. simpl. rewrite Hp. simpl.
  by rewrite <- app_assoc.
Qed.

(** When the promise is still pending after the call, the strategy holds the
    callback: a [Timeout] runs it, on a state that differs from the current
    one at most in the host's timer table. *)
Lemma start_timeout w rq :
  promise (start w rq) = Pending →
  ∃ s1, deliver w rq Timeout (start w rq) = run_callback (timeoutCallback w rq) s1 ∧
        promise s1 = Pending ∧ effects s1 = effects (start w rq).
Proof.
  intros Hp. destruct (start_pending w rq Hp) as (Hv & Ht & Hi & Hc & He & Hd).
  simpl. destruct (decide (timeoutFunction rq = VFunction SimpleTimeout)) as [Hs|Hs].
  - destruct (Hd Hs) as (id & Hh & Hin). rewrite Hs, Hh. unfold fire_timer.
    rewrite bool_decide_eq_true_2 by done.
    exists (assign_timers (timers (start w rq) ∖ {[id]}) (start w rq)). done.
  - exists (start w rq). rewrite Hc. split; [|done].
    destruct (timeoutFunction rq) as [| | | | | | |[]|]; try done;
      by destruct (stopWaitingForTimeout (start w rq)) as [| | | | | | |[]|].
Qed.

(** C3, as the code has it: when the timer fires before any completion
    notification and the call has left the promise pending, [hasTimedOut] is
    set, the promise is rejected with an [Error] whose message holds both the
    method name and the timeoutMs value as their string forms, and after that
    [fileReader.abort()] is called. *)
Theorem timeout_rejects_then_aborts w m b arg s0 :
  reliableFileReader w m b arg = Normal s0 →
  promise s0 = Pending →
  let rq := request_of m b arg in
  let s := deliver w rq Timeout s0 in
  let msg := timeout_message rq in
  hasTimedOut s = true ∧
  promise s = Rejected (Error msg) ∧
  includes msg (toString (method rq)) ∧
  includes msg (toString (timeoutMs rq)) ∧
  ∃ tail, effects s = effects s0 ++ [EReject (Error msg); EAbort] ++ tail ∧
          (tail = [] ∨ ∃ e, tail = [EUncaught e]).
Proof.
  intros Hcall Hp rq s msg. apply reliableFileReader_start in Hcall as ->.
  fold rq in Hp, s. subst s.
  destruct (start_timeout w rq Hp) as (s1 & -> & Hp1 & He1).
  destruct (timed_out_pending rq s1 Hp1) as (Ht & Hr & He).
  rewrite He1 in He. rewrite run_timeoutCallback.
  split_and!; [| |apply timeout_message_includes_method
              |apply timeout_message_includes_timeoutMs|].
  - by destruct (fileReader_abort w _).
  - by destruct (fileReader_abort w _).
  - destruct (fileReader_abort w _) as [v|e].
    + exists []. split; [|by left]. by rewrite He.
    + exists [EUncaught e]. split; [|by eauto]. cbn [log effects]. rewrite He.
      by rewrite <- app_assoc.
Qed.

Lemma timeout_rejects_then_aborts_witness :
  ∃ s0, reliableFileReader browser readAsDataURL someBlob
          (Options (mkOptions (VNumber (Int 10000)) VUndefined VUndefined)) = Normal s0 ∧
  let rq := request_of readAsDataURL someBlob
              (Options (mkOptions (VNumber (Int 10000)) VUndefined VUndefined)) in
  let s := deliver browser rq Timeout s0 in
  let msg := timeout_message rq in
  hasTimedOut s = true ∧
  promise s = Rejected (Error msg) ∧
  includes msg (toString (method rq)) ∧
  includes msg (toString (timeoutMs rq)) ∧
  ∃ tail, effects s = effects s0 ++ [EReject (Error msg); EAbort] ++ tail ∧
          (tail = [] ∨ ∃ e, tail = [EUncaught e]).
Proof.
  eexists. split; [reflexivity|].
  apply (timeout_rejects_then_aborts browser readAsDataURL someBlob
           (Options (mkOptions (VNumber (Int 10000)) VUndefined VUndefined)));
    reflexivity.
Defined.

(** C3 as stated fails: when the reader's method throws as it is called, the
    call rejects the promise with what was thrown and leaves the timer
    running.  No completion notification arrives; the timer fires, the
    callback sets [hasTimedOut] and attempts the abort, but the promise keeps
    the reader's error and is not rejected with the timeout error. *)
Lemma timeout_after_a_failed_read_keeps_the_readers_error :
  ∃ s0, reliableFileReader browser_busy_reader readAsDataURL someBlob NoOptions
        = Normal s0 ∧
  let rq := default_request in
  let s := deliver browser_busy_reader rq Timeout s0 in
  hasTimedOut s = true ∧
  promise s = Rejected (VError "InvalidStateError" "the reader is busy reading") ∧
  promise s ≠ Rejected (Error (timeout_message rq)) ∧
  effects s = [EStartTimer (VNumber (Int 30000)); ERead readAsDataURL someBlob;
               EReject (VError "InvalidStateError" "the reader is busy reading");
               EAbort].
Proof.
  eexists. split; [reflexivity|]. split_and!; [reflexivity|reflexivity| |reflexivity].
  vm_compute. discriminate.
Qed.

Example timeout_message_10000 :
  timeout_message (request_of readAsDataURL someBlob
                     (Options (mkOptions (VNumber (Int 10000)) VUndefined VUndefined)))
  = "FileReader readAsDataURL timed out after 10000ms".
Proof. vm_compute. reflexivity. Qed.




(** ** States with a pending promise *)

Lemma reachable_pending w rq sigs :
  promise (run w rq sigs (start w rq)) = Pending →
  let s := run w rq sigs (start w rq) in
  valid w rq ∧
  promise (start w rq) = Pending ∧
  hasTimedOut s = false ∧
  handlersInstalled s = true ∧
  stopWaitingForTimeout s = stopWaitingForTimeout (start w rq).
Proof.
  intros Hp s.
  destruct (run_extends w rq sigs (start w rq)) as (Hh & Hi & _ & _ & Hk & _).
  assert (promise (start w rq) = Pending) as Hp0.
  { destruct (decide (promise (start w rq) = Pending)) as [|Hn]; [done|].
    rewrite <- (Hk Hn). done. }
  destruct (start_pending w rq Hp0) as (Hv & _ & Hi0 & _).
  split_and!; try done.
  - destruct (run_coherent w rq sigs _ (start_coherent w rq)) as (_ & _ & Ht).
    destruct (hasTimedOut s) eqn:Hto; [|done]. by destruct (Ht Hto).
  - subst s. by rewrite Hi.
Qed.

(** ** Completion before the timeout *)

Lemma cancelled_state w s v s1 :
  call_stopWaitingForTimeout w s = (Normal v, s1) →
  effects s1 = effects s ++ [ECancelTimer] ∧
  promise s1 = promise s ∧
  stopWaitingForTimeout s1 = stopWaitingForTimeout s ∧
  (∀ id, stopWaitingForTimeout s = VFunction (StopWaiting id) → id ∉ timers s1).
Proof.
  rewrite call_stopWaitingForTimeout_eq.
  destruct (stopWaitingForTimeout s) as [| | | | | | |f|] eqn:Hh; try done.
  destruct f; intros [= _ <-]; split_and!; try done.
  intros id [= <-]. simpl. apply not_elem_of_cleared.
Qed.

Lemma early_completion w rq result error s v s1 :
  handlersInstalled s = true →
  hasTimedOut s = false →
  promise s = Pending →
  call_stopWaitingForTimeout w s = (Normal v, s1) →
  let settled :=
    if truthy error then Rejected error else Fulfilled result in
  let s' := run_callback (onComplete w rq result error) s in
  promise s' = settled ∧
  effects s' = effects s ++ ECancelTimer :: settlement_of settled ∧
  stopWaitingForTimeout s' = stopWaitingForTimeout s ∧
  timers s' = timers s1.
Proof.
  intros Hi Ht Hp Hc. destruct (cancelled_state w s v s1 Hc) as (He & Hp1 & Hh & _).
  unfold run_callback. rewrite onComplete_early, Hc by done.
  unfold settle. rewrite Hp1, Hp.
  destruct (truthy error); simpl; rewrite He, <- app_assoc; done.
Qed.

(** C4, as the code has it: a completion notification that finds the promise
    still pending calls the cancellation handle and, when that call returns,
    settles the promise: a success fulfils it with the carried result, a
    failure whose error is truthy rejects it with that very error.  With the
    default strategy the timer is then no longer active, so a later timeout
    does nothing. *)
Theorem first_completion_settles w m b arg s0 sigs :
  reliableFileReader w m b arg = Normal s0 →
  let rq := request_of m b arg in
  let s := run w rq sigs s0 in
  promise s = Pending →
  cancel_returns w s →
  (∀ result, let s' := deliver w rq (OnLoad result) s in
     promise s' = Fulfilled result ∧
     effects s' = effects s ++ [ECancelTimer; EFulfill result]) ∧
  (∀ error, truthy error = true →
     let s' := deliver w rq (OnError error) s in
     promise s' = Rejected error ∧
     effects s' = effects s ++ [ECancelTimer; EReject error]) ∧
  (timeoutFunction rq = VFunction SimpleTimeout →
   ∀ sig, is_completion sig = true →
     let s' := deliver w rq sig s in deliver w rq Timeout s' = s').
Proof.
  intros Hcall rq s Hp (v & s1 & Hc). apply reliableFileReader_start in Hcall as ->.
  fold rq in s, Hp.
  destruct (reachable_pending w rq sigs Hp) as (Hv & Hp0 & Ht & Hi & Hh).
  fold s in Ht, Hi, Hh. split_and!.
  - intros result. simpl. rewrite Hi.
    destruct (early_completion w rq result VUndefined s v s1 Hi Ht Hp Hc) as (? & ? & _).
    done.
  - intros error Htr. simpl. rewrite Hi.
    destruct (early_completion w rq VUndefined error s v s1 Hi Ht Hp Hc) as (H1 & H2 & _).
    rewrite Htr in H1, H2. done.
  - intros Hd sig Hsig.
    destruct (start_pending w rq Hp0) as (_ & _ & _ & _ & _ & Hid).
    destruct (Hid Hd) as (id & Hh0 & _). rewrite Hh0 in Hh.
    destruct (cancelled_state w s v s1 Hc) as (_ & _ & _ & Hout).
    assert (∀ result error,
      let s' := run_callback (onComplete w rq result error) s in
      deliver w rq Timeout s' = s') as Hquiet.
    { intros result error.
      destruct (early_completion w rq result error s v s1 Hi Ht Hp Hc)
        as (_ & _ & Hh' & Ht').
      simpl. rewrite Hd, Hh', Hh. unfold fire_timer.
      rewrite bool_decide_eq_false_2; [done|]. rewrite Ht'. by apply Hout. }
    destruct sig as [|result|error]; [done| |]; cbv zeta.
    + change (deliver w rq (OnLoad result) s)
        with (if handlersInstalled s
              then run_callback (onComplete w rq result VUndefined) s else s).
      rewrite Hi. apply Hquiet.
    + change (deliver w rq (OnError error) s)
        with (if handlersInstalled s
              then run_callback (onComplete w rq VUndefined error) s else s).
      rewrite Hi. apply Hquiet.
Qed.

Lemma first_completion_settles_witness :
  ∃ s0, reliableFileReader browser readAsDataURL someBlob NoOptions = Normal s0 ∧
  let rq := default_request in
  let s := run browser rq [] s0 in
  (∀ result, let s' := deliver browser rq (OnLoad result) s in
     promise s' = Fulfilled result ∧
     effects s' = effects s ++ [ECancelTimer; EFulfill result]) ∧
  (∀ error, truthy error = true →
     let s' := deliver browser rq (OnError error) s in
     promise s' = Rejected error ∧
     effects s' = effects s ++ [ECancelTimer; EReject error]) ∧
  (timeoutFunction rq = VFunction SimpleTimeout →
   ∀ sig, is_completion sig = true →
     let s' := deliver browser rq sig s in deliver browser rq Timeout s' = s').
Proof.
  eexists. split; [reflexivity|].
  apply (first_completion_settles browser readAsDataURL someBlob NoOptions _ []).
  - reflexivity.
  - reflexivity.
  - eexists _, _. reflexivity.
Defined.

(** C4 as stated fails: a failure notification that carries a falsy error
    and arrives before the timeout does not reject the promise with it. *)
Lemma falsy_error_is_not_rejected :
  ∃ s0, reliableFileReader browser readAsDataURL someBlob NoOptions = Normal s0 ∧
        promise s0 = Pending ∧ hasTimedOut s0 = false ∧
        promise (deliver browser default_request (OnError (VString "")) s0)
        ≠ Rejected (VString "").
Proof.
  eexists. split; [reflexivity|]. split_and!; [reflexivity|reflexivity|].
  vm_compute. discriminate.
Qed.

(** C10, as the code has it: a failure notification that finds the promise
    pending, whose call of the cancellation handle returns and which carries
    a falsy error takes the success branch; the promise is fulfilled with the
    notification's result field, which the [onerror] handler leaves
    undefined, and is not rejected. *)
Theorem falsy_error_resolves w m b arg s0 sigs error :
  reliableFileReader w m b arg = Normal s0 →
  let rq := request_of m b arg in
  let s := run w rq sigs s0 in
  promise s = Pending →
  cancel_returns w s →
  truthy error = false →
  let s' := deliver w rq (OnError error) s in
  promise s' = Fulfilled VUndefined ∧
  effects s' = effects s ++ [ECancelTimer; EFulfill VUndefined] ∧
  (∀ result, promise (run_callback (onComplete w rq result error) s) = Fulfilled result).
Proof.
  intros Hcall rq s Hp (v & s1 & Hc) Hf. apply reliableFileReader_start in Hcall as ->.
  fold rq in s, Hp.
  destruct (reachable_pending w rq sigs Hp) as (Hv & Hp0 & Ht & Hi & Hh).
  fold s in Ht, Hi, Hh. simpl. rewrite Hi. split_and!.
  - destruct (early_completion w rq VUndefined error s v s1 Hi Ht Hp Hc) as (H1 & _).
    by rewrite Hf in H1.
  - destruct (early_completion w rq VUndefined error s v s1 Hi Ht Hp Hc) as (_ & H2 & _).
    by rewrite Hf in H2.
  - intros result.
    destruct (early_completion w rq result error s v s1 Hi Ht Hp Hc) as (H1 & _).
    by rewrite Hf in H1.
Qed.

Lemma falsy_error_resolves_witness :
  ∃ s0, reliableFileReader browser readAsDataURL someBlob NoOptions = Normal s0 ∧
  let rq := default_request in
  let s := run browser rq [] s0 in
  let s' := deliver browser rq (OnError VNull) s in
  promise s' = Fulfilled VUndefined ∧
  effects s' = effects s ++ [ECancelTimer; EFulfill VUndefined] ∧
  (∀ result, promise (run_callback (onComplete browser rq result VNull) s) = Fulfilled result).
Proof.
  eexists. split; [reflexivity|].
  apply (falsy_error_resolves browser readAsDataURL someBlob NoOptions _ [] VNull).
  - reflexivity.
  - reflexivity.
  - eexists _, _. reflexivity.
  - reflexivity.
Defined.

(** C10 as stated fails: [onComplete] reaches the test of [error] only after
    the cancellation handle has been called and has returned.  With a
    strategy that returned no handle, a failure notification with a null
    error, arriving before the timeout, ends in a [TypeError] and leaves the
    promise pending.  And when a success notification came first, the later
    failure notification with a null error leaves the promise fulfilled with
    the earlier result, not with undefined. *)
Lemma falsy_error_does_not_always_resolve :
  (∃ s0, reliableFileReader browser_no_handle readAsDataURL someBlob
           (Options custom_strategy) = Normal s0 ∧
     let s := deliver browser_no_handle custom_request (OnError VNull) s0 in
     hasTimedOut s0 = false ∧
     promise s = Pending ∧
     effects s = effects s0
                 ++ [EUncaught (TypeError "stopWaitingForTimeout is not a function")]) ∧
  (∃ s0, reliableFileReader browser readAsDataURL someBlob NoOptions = Normal s0 ∧
     let s1 := deliver browser default_request (OnLoad (VString "data:")) s0 in
     let s := deliver browser default_request (OnError VNull) s1 in
     hasTimedOut s1 = false ∧
     promise s = Fulfilled (VString "data:") ∧
     promise s ≠ Fulfilled VUndefined).
Proof.
  split; eexists; (split; [reflexivity|]).
  - split_and!; reflexivity.
  - split_and!; [reflexivity|reflexivity|]. vm_compute. discriminate.
Qed.

(** ** Completion after the timeout *)

Lemma cancellations_app l n : cancellations (l ++ n) = cancellations l + cancellations n.
Proof. unfold cancellations. by rewrite List.filter_app, length_app. Qed.

Lemma late_finishes_app l n : late_finishes (l ++ n) = late_finishes l + late_finishes n.
Proof. unfold late_finishes. by rewrite List.filter_app, length_app. Qed.

Lemma late_completion w rq result error s :
  typeof (onFinishAfterTimeout rq) = "function" →
  hasTimedOut s = true →
  let s' := run_callback (onComplete w rq result error) s in
  s' = log (ELateFinish result error) s ∨
  ∃ e, s' = log (EUncaught e) (log (ELateFinish result error) s).
Proof.
  intros Hf Ht. unfold run_callback. rewrite onComplete_late by done.
  destruct (call_onFinishAfterTimeout_eq w rq result error s Hf) as [[v|e] ->]; eauto.
Qed.

(** C5, as the code has it: when [hasTimedOut] is set, each completion
    notification calls [onFinishAfterTimeout] exactly once, with the result
    or the error the notification carries; the promise, already settled,
    keeps its state, and the cancellation handle is not called. *)
Theorem late_completion_notifies_once w m b arg s0 sigs :
  reliableFileReader w m b arg = Normal s0 →
  let rq := request_of m b arg in
  let s := run w rq sigs s0 in
  hasTimedOut s = true →
  handlersInstalled s = true →
  promise s ≠ Pending ∧
  (∀ result, late_notified s (deliver w rq (OnLoad result) s)
               (ELateFinish result VUndefined)) ∧
  (∀ error, late_notified s (deliver w rq (OnError error) s)
              (ELateFinish VUndefined error)).
Proof.
  intros Hcall rq s Ht Hi. apply reliableFileReader_start in Hcall as ->.
  fold rq in s.
  destruct (run_extends w rq sigs (start w rq)) as (_ & Hi0 & _).
  fold s in Hi0. rewrite Hi in Hi0.
  assert (valid w rq) as (_ & _ & _ & Hf & _) by (by apply start_wired; left).
  destruct (run_coherent w rq sigs _ (start_coherent w rq)) as (_ & _ & Hset).
  fold s in Hset. specialize (Hset Ht).
  assert (∀ result error,
    late_notified s (run_callback (onComplete w rq result error) s)
      (ELateFinish result error)) as Hlate.
  { intros result error. unfold late_notified.
    destruct (late_completion w rq result error s Hf Ht) as [->|[e ->]]; simpl.
    - split_and!; try done.
      + exists []. eauto.
      + rewrite late_finishes_app. unfold late_finishes at 2. simpl. lia.
      + rewrite cancellations_app. unfold cancellations at 2. simpl. lia.
    - split_and!; try done.
      + exists [EUncaught e]. rewrite <- app_assoc. eauto.
      + rewrite !late_finishes_app. unfold late_finishes at 2 3. simpl. lia.
      + rewrite !cancellations_app. unfold cancellations at 2 3. simpl. lia. }
  split_and!; [done| |].
  - intros result.
    change (deliver w rq (OnLoad result) s)
      with (if handlersInstalled s
            then run_callback (onComplete w rq result VUndefined) s else s).
    rewrite Hi. apply Hlate.
  - intros error.
    change (deliver w rq (OnError error) s)
      with (if handlersInstalled s
            then run_callback (onComplete w rq VUndefined error) s else s).
    rewrite Hi. apply Hlate.
Qed.

Lemma late_completion_notifies_once_witness :
  ∃ s0, reliableFileReader browser readAsDataURL someBlob (Options custom_strategy)
        = Normal s0 ∧
  let rq := custom_request in
  let s := run browser rq [Timeout] s0 in
  promise s ≠ Pending ∧
  (∀ result, late_notified s (deliver browser rq (OnLoad result) s)
               (ELateFinish result VUndefined)) ∧
  (∀ error, late_notified s (deliver browser rq (OnError error) s)
              (ELateFinish VUndefined error)).
Proof.
  eexists. split; [reflexivity|].
  apply (late_completion_notifies_once browser readAsDataURL someBlob
           (Options custom_strategy) _ [Timeout]); reflexivity.
Defined.

(** C5 as stated fails: in a request whose reader fires both notifications
    after the timeout, [onFinishAfterTimeout] is called twice, once for each
    of them, not once for the request. *)
Lemma late_finish_is_called_for_each_notification :
  ∃ s0, reliableFileReader browser readAsDataURL someBlob (Options custom_strategy)
        = Normal s0 ∧
  let s := run browser custom_request
             [Timeout; OnLoad (VString "data:");
              OnError (VObject "[object ProgressEvent]")] s0 in
  late_finishes (effects s) = 2 ∧
  effects s = [EStartTimer (VNumber (Int 10000)); ERead readAsDataURL someBlob;
               EReject (Error "FileReader readAsDataURL timed out after 10000ms");
               EAbort;
               ELateFinish (VString "data:") VUndefined;
               ELateFinish VUndefined (VObject "[object ProgressEvent]")].
Proof.
  eexists. split; [reflexivity|]. split; vm_compute; reflexivity.
Qed.

(** Read succeeds before the timeout: the promise is fulfilled with the data
    URL, the timer is cleared and the late-finish callback is never called. *)
Example success_scenario :
  let rq := request_of readAsDataURL someBlob
              (Options (mkOptions (VNumber (Int 10000)) VUndefined VUndefined)) in
  let s := run browser rq [OnLoad (VString "data:text/plain;base64,aGk="); Timeout]
             (start browser rq) in
  promise s = Fulfilled (VString "data:text/plain;base64,aGk=") ∧
  effects s = [EStartTimer (VNumber (Int 10000)); ERead readAsDataURL someBlob;
               ECancelTimer; EFulfill (VString "data:text/plain;base64,aGk=")] ∧
  timers s = ∅ ∧
  late_finishes (effects s) = 0.
Proof. vm_compute. by split_and!. Qed.

Example late_finish_scenario :
  effects (run browser custom_request [Timeout; OnLoad (VString "data:")]
             (start browser custom_request)) =
  [EStartTimer (VNumber (Int 10000)); ERead readAsDataURL someBlob;
   EReject (Error "FileReader readAsDataURL timed out after 10000ms"); EAbort;
   ELateFinish (VString "data:") VUndefined].
Proof. vm_compute. reflexivity. Qed.

(** ** The cancellation handle *)

Lemma cancellations_log ev s :
  cancellations (effects (log ev s)) =
  cancellations (effects s) + (if is_cancel ev then 1 else 0).
Proof.
  simpl. rewrite cancellations_app. unfold cancellations at 2. simpl.
  by destruct (is_cancel ev).
Qed.

Lemma cancellations_settle p ev s :
  is_cancel ev = false →
  cancellations (effects (settle p ev s)) = cancellations (effects s).
Proof.
  intros Hev. unfold settle. destruct (promise s); [|done..].
  rewrite cancellations_log, Hev. simpl. lia.
Qed.

Lemma cancellations_timed_out rq s :
  cancellations (effects (timed_out rq s)) = cancellations (effects s).
Proof.
  unfold timed_out. rewrite cancellations_log. simpl.
  rewrite cancellations_settle by done. simpl. lia.
Qed.

Lemma cancellations_run_timeoutCallback w rq s :
  cancellations (effects (run_callback (timeoutCallback w rq) s))
  = cancellations (effects s).
Proof.
  rewrite run_timeoutCallback. destruct (fileReader_abort w _).
  - apply cancellations_timed_out.
  - rewrite cancellations_log, cancellations_timed_out. simpl. lia.
Qed.

Lemma run_callback_cancellations body s c s' :
  body s = (c, s') →
  cancellations (effects (run_callback body s)) = cancellations (effects s').
Proof.
  intros Hb. unfold run_callback. rewrite Hb. destruct c; [done|].
  rewrite cancellations_log. simpl. lia.
Qed.

Lemma call_onFinishAfterTimeout_cancellations w rq result error s c s' :
  call_onFinishAfterTimeout w rq result error s = (c, s') →
  cancellations (effects s') = cancellations (effects s).
Proof.
  unfold_M. destruct (onFinishAfterTimeout rq) as [| | | | | | |f|];
    try (by intros [= _ <-]).
  destruct f; intros [= _ <-]; rewrite cancellations_log; simpl; lia.
Qed.

Lemma call_stopWaitingForTimeout_cancellations w s c s' :
  call_stopWaitingForTimeout w s = (c, s') →
  cancellations (effects s')
  = cancellations (effects s) + (if callable (stopWaitingForTimeout s) then 1 else 0).
Proof.
  rewrite call_stopWaitingForTimeout_eq.
  destruct (stopWaitingForTimeout s) as [| | | | | | |f|];
    try (intros [= _ <-]; simpl; lia).
  pose proof (cancellations_log ECancelTimer s) as Hlog. simpl in Hlog.
  destruct f; by intros [= _ <-].
Qed.

Lemma onComplete_cancellations w rq result error s c s' :
  onComplete w rq result error s = (c, s') →
  cancellations (effects s')
  = cancellations (effects s)
    + (if negb (hasTimedOut s) && callable (stopWaitingForTimeout s) then 1 else 0).
Proof.
  destruct (hasTimedOut s) eqn:Ht; simpl.
  - rewrite onComplete_late by done.
    intros ->%call_onFinishAfterTimeout_cancellations. lia.
  - rewrite onComplete_early by done.
    destruct (call_stopWaitingForTimeout w s) as [[v|e] s1] eqn:Hs;
      apply call_stopWaitingForTimeout_cancellations in Hs; intros [= _ <-]; [|done].
    destruct (truthy error); by rewrite cancellations_settle.
Qed.

Lemma cancellations_run_onComplete w rq result error s :
  cancellations (effects (run_callback (onComplete w rq result error) s))
  = cancellations (effects s)
    + (if negb (hasTimedOut s) && callable (stopWaitingForTimeout s) then 1 else 0).
Proof.
  destruct (onComplete w rq result error s) as [c s'] eqn:Hb.
  rewrite (run_callback_cancellations _ _ _ _ Hb).
  by apply onComplete_cancellations in Hb.
Qed.

(** Every delivery adds exactly [cancels] calls of the handle. *)
Lemma deliver_cancellations w rq sig s :
  cancellations (effects (deliver w rq sig s))
  = cancellations (effects s) + cancels sig s.
Proof.
  unfold cancels. destruct sig as [|result|error]; simpl.
  - assert (∀ id, cancellations (effects (fire_timer id (timeoutCallback w rq) s))
                  = cancellations (effects s)) as Hfire.
    { intros id. unfold fire_timer. case_bool_decide; [|done].
      unfold run_callback. cbv [mbind M_bind clearTimeout get modify].
      apply (cancellations_run_timeoutCallback w rq
               (assign_timers (timers s ∖ {[id]}) s)). }
    pose proof (cancellations_run_timeoutCallback w rq s) as Hrun.
    repeat case_match; rewrite ?Hfire, ?Hrun; lia.
  - destruct (handlersInstalled s); simpl; [|lia].
    apply cancellations_run_onComplete.
  - destruct (handlersInstalled s); simpl; [|lia].
    apply cancellations_run_onComplete.
Qed.

Lemma start_cancellations w rq : cancellations (effects (start w rq)) = 0.
Proof.
  destruct (valid_or_failure w rq) as [Hv|(err & Hf)].
  - rewrite start_valid by done. simpl.
    repeat case_match; rewrite ?cancellations_settle by done; done.
  - by rewrite (start_invalid _ _ _ Hf).
Qed.

Lemma run_cancellations w rq sigs s :
  cancellations (effects (run w rq sigs s)) ≤ cancellations (effects s) + completions sigs.
Proof.
  revert s. induction sigs as [|sig sigs IH]; intros s; simpl; [lia|].
  etrans; [apply IH|]. rewrite deliver_cancellations.
  unfold cancels, completions. simpl.
  destruct (is_completion sig); simpl; [|lia].
  destruct (_ && _); lia.
Qed.

(** ** Single settlement *)





(** ** How often the handle is called *)

(** C6, as the code has it: the cancellation handle is called on the
    non-timeout path only, never by the timeout callback and never by a
    notification that finds [hasTimedOut] set, and once by every completion
    notification that arrives before that; so it is called at most as often
    as the reader fires completion notifications, which is more than once
    when the reader fires both. *)
Theorem handle_called_once_per_early_completion w m b arg s0 sigs :
  reliableFileReader w m b arg = Normal s0 →
  let rq := request_of m b arg in
  let s := run w rq sigs s0 in
  cancellations (effects s) ≤ completions sigs ∧
  cancellations (effects (deliver w rq Timeout s)) = cancellations (effects s) ∧
  (hasTimedOut s = true →
   ∀ sig, cancellations (effects (deliver w rq sig s)) = cancellations (effects s) ∧
          hasTimedOut (deliver w rq sig s) = true) ∧
  (∀ sig, cancellations (effects (deliver w rq sig s))
          = cancellations (effects s) + cancels sig s).
Proof.
  intros Hcall rq s. apply reliableFileReader_start in Hcall as ->. fold rq in s.
  split_and!.
  - pose proof (run_cancellations w rq sigs (start w rq)) as H.
    rewrite start_cancellations in H. done.
  - rewrite deliver_cancellations. unfold cancels. simpl. lia.
  - intros Ht sig. split.
    + rewrite deliver_cancellations. unfold cancels. rewrite Ht.
      rewrite andb_false_r. simpl. lia.
    + by apply (deliver_extends w rq sig s).
  - intros sig. apply deliver_cancellations.
Qed.

Lemma handle_called_once_per_early_completion_witness :
  ∃ s0, reliableFileReader browser readAsDataURL someBlob (Options custom_strategy)
        = Normal s0 ∧
  let rq := custom_request in
  let sigs := [OnLoad (VString "data:"); Timeout] in
  let s := run browser rq sigs s0 in
  cancellations (effects s) ≤ completions sigs ∧
  cancellations (effects (deliver browser rq Timeout s)) = cancellations (effects s) ∧
  (hasTimedOut s = true →
   ∀ sig, cancellations (effects (deliver browser rq sig s)) = cancellations (effects s) ∧
          hasTimedOut (deliver browser rq sig s) = true) ∧
  (∀ sig, cancellations (effects (deliver browser rq sig s))
          = cancellations (effects s) + cancels sig s).
Proof.
  eexists. split; [reflexivity|].
  apply (handle_called_once_per_early_completion browser readAsDataURL someBlob
           (Options custom_strategy) _ [OnLoad (VString "data:"); Timeout]).
  reflexivity.
Defined.

(** C6 as stated fails: when the reader fires both notifications before the
    timeout, the cancellation handle is called twice. *)
Lemma handle_called_twice_on_dual_firing :
  ∃ s0, reliableFileReader browser readAsDataURL someBlob (Options custom_strategy)
        = Normal s0 ∧
  let s := run browser custom_request
             [OnLoad (VString "data:"); OnError (VObject "[object ProgressEvent]")] s0 in
  hasTimedOut s = false ∧
  cancellations (effects s) = 2 ∧
  ¬ (cancellations (effects s) ≤ 1).
Proof.
  eexists. split; [reflexivity|]. split_and!; [reflexivity|reflexivity|].
  vm_compute. lia.
Qed.

(** ** [simpleTimeout] *)

Lemma stopWaiting_inactive id s :
  id ∉ timers s → stopWaiting id s = (Normal VUndefined, s).
Proof.
  intros Hid. unfold_M. f_equal. destruct s as [hto h p t cho hi tr]. simpl in *.
  unfold assign_timers. simpl. f_equal. by apply cleared_inactive.
Qed.

Lemma stopWaiting_timers id s : timers (snd (stopWaiting id s)) = timers s ∖ {[id]}.
Proof. done. Qed.

Lemma stopWaiting_again id s :
  stopWaiting id (snd (stopWaiting id s)) = (Normal VUndefined, snd (stopWaiting id s)).
Proof.
  apply stopWaiting_inactive. rewrite stopWaiting_timers. apply not_elem_of_cleared.
Qed.

Lemma stopWaiting_repeated id n s :
  Nat.iter (S n) (λ st, snd (stopWaiting id st)) s = snd (stopWaiting id s).
Proof.
  induction n as [|n IH]; [done|].
  change (Nat.iter (S (S n)) (λ st, snd (stopWaiting id st)) s)
    with (snd (stopWaiting id (Nat.iter (S n) (λ st, snd (stopWaiting id st)) s))).
  by rewrite IH, stopWaiting_again.
Qed.

(** C9: the function [simpleTimeout] returns clears a timer that is active
    and does nothing otherwise; called after the timer has fired it leaves
    the state as it is, a second call in a row changes nothing, and any
    number of calls leaves the state one call leaves. *)
Theorem stopWaiting_is_idempotent s :
  ∃ id s1,
    simpleTimeout s = (Normal (VFunction (StopWaiting id)), s1) ∧
    id ∈ timers s1 ∧
    (∀ w rq, let s2 := fire_timer id (timeoutCallback w rq) s1 in
             hasTimedOut s2 = true ∧ stopWaiting id s2 = (Normal VUndefined, s2)) ∧
    (∀ s2, id ∉ timers s2 → stopWaiting id s2 = (Normal VUndefined, s2)) ∧
    (∀ s2, let s3 := snd (stopWaiting id s2) in
           stopWaiting id s3 = (Normal VUndefined, s3)) ∧
    (∀ n s2, Nat.iter (S n) (λ st, snd (stopWaiting id st)) s2
             = snd (stopWaiting id s2)).
Proof.
  exists (fresh (timers s)), (assign_timers ({[fresh (timers s)]} ∪ timers s) s).
  split_and!.
  - done.
  - apply elem_of_added.
  - intros w rq. unfold fire_timer.
    rewrite bool_decide_eq_true_2 by apply elem_of_added.
    unfold run_callback. cbv [mbind M_bind clearTimeout get modify].
    rewrite timeoutCallback_eq.
    set (s' := assign_timers _ (assign_timers _ s)).
    assert (fresh (timers s) ∉ timers (timed_out rq s')) as Hout.
    { unfold timed_out, settle. destruct (promise _); simpl;
        apply not_elem_of_cleared. }
    assert (hasTimedOut (timed_out rq s') = true) as Ht.
    { unfold timed_out, settle. by destruct (promise _). }
    destruct (fileReader_abort w _); simpl.
    + split; [done|]. by apply stopWaiting_inactive.
    + split; [done|]. by apply stopWaiting_inactive.
  - intros s2. apply stopWaiting_inactive.
  - intros s2 s3. apply stopWaiting_again.
  - intros n s2. apply stopWaiting_repeated.
Qed.

(** * Further properties *)

(** ** Binding the parameters *)

(** The call throws to its caller exactly when the third argument is
    [null]; whatever the source, the method and the options of an object
    are, it returns a promise. *)
Lemma throws_only_on_null_options w m b arg :
  (∃ e, reliableFileReader w m b arg = Throw e) ↔ arg = NullOptions.
Proof.
  split.
  - intros [e He]. destruct arg; [discriminate|done|discriminate].
  - intros ->. eauto.
Qed.

(** X1: an option that is [null] is not replaced by its default, since a
    default applies to [undefined] only.  With source and method in order,
    [timeoutMs: null] is rejected as an invalid timeoutMs; a null
    onFinishAfterTimeout is rejected when the timeoutMs in force, given or
    defaulted, is a number; and a null timeoutFunction when the callback in
    force is a function as well. *)
Theorem null_option_is_not_defaulted w m b o :
  instanceof_Blob b = true →
  typeof (FileReader_prototype w (toString m)) = "function" →
  let rq := bind_parameters m b o in
  let s := start w rq in
  reliableFileReader w m b (Options o) = Normal s ∧
  (opt_timeoutMs o = VNull →
   promise s = Rejected (Error "Invalid timeoutMs passed to FileReader: null")) ∧
  (typeof (timeoutMs rq) = "number" →
   opt_onFinishAfterTimeout o = VNull →
   promise s = Rejected (Error "Invalid onFinishAfterTimeout passed to FileReader: null")) ∧
  (typeof (timeoutMs rq) = "number" →
   typeof (onFinishAfterTimeout rq) = "function" →
   opt_timeoutFunction o = VNull →
   promise s = Rejected (Error "Invalid timeoutFunction passed to FileReader: null")).
Proof.
  intros Hb Hm rq s. subst s.
  assert (instanceof_Blob (blob rq) = true →
          ∃ member, FileReader_prototype_get w (toString (method rq)) = Normal member)
    as Hget by (intros _; eexists; by apply prototype_function).
  split_and!; [done|..].
  - intros Ht.
    rewrite (start_descriptive w rq "timeoutMs" VNull); [done| |done].
    unfold first_failure. simpl. rewrite Hb, Ht, bool_decide_eq_true_2 by done. done.
  - intros Ht Ho.
    rewrite (start_descriptive w rq "onFinishAfterTimeout" VNull); [done| |done].
    unfold first_failure. simpl in *.
    rewrite Hb, Ho, !bool_decide_eq_true_2 by done. done.
  - intros Ht Ho Hf.
    rewrite (start_descriptive w rq "timeoutFunction" VNull); [done| |done].
    unfold first_failure. simpl in *.
    rewrite Hb, Hf, !bool_decide_eq_true_2 by done. done.
Qed.

Lemma null_option_is_not_defaulted_witness :
  (∃ s, reliableFileReader browser readAsDataURL someBlob
          (Options (mkOptions VNull VUndefined VUndefined)) = Normal s ∧
        promise s = Rejected (Error "Invalid timeoutMs passed to FileReader: null")) ∧
  (∃ s, reliableFileReader browser readAsDataURL someBlob
          (Options (mkOptions VUndefined VNull VUndefined)) = Normal s ∧
        promise s
        = Rejected (Error "Invalid onFinishAfterTimeout passed to FileReader: null")) ∧
  (∃ s, reliableFileReader browser readAsDataURL someBlob
          (Options (mkOptions VUndefined VUndefined VNull)) = Normal s ∧
        promise s = Rejected (Error "Invalid timeoutFunction passed to FileReader: null")).
Proof.
  split_and!; eexists.
  - pose proof (null_option_is_not_defaulted browser readAsDataURL someBlob
                  (mkOptions VNull VUndefined VUndefined)) as H.
    destruct H as (Hcall & Ht & _); [reflexivity..|].
    split; [exact Hcall|]. apply Ht. reflexivity.
  - pose proof (null_option_is_not_defaulted browser readAsDataURL someBlob
                  (mkOptions VUndefined VNull VUndefined)) as H.
    destruct H as (Hcall & _ & Ho & _); [reflexivity..|].
    split; [exact Hcall|]. apply Ho; reflexivity.
  - pose proof (null_option_is_not_defaulted browser readAsDataURL someBlob
                  (mkOptions VUndefined VUndefined VNull)) as H.
    destruct H as (Hcall & _ & _ & Hf); [reflexivity..|].
    split; [exact Hcall|]. apply Hf; reflexivity.
Defined.

(** X2: with the options omitted only the source and the method can fail
    validation; when both are in order the first thing the call does is to
    start the built-in strategy for 30000 ms.  A timer that was not active
    before becomes active and the others are left alone, the [stopWaiting]
    that belongs to it is kept as the cancellation handle, and the call
    starts no second timer. *)
Theorem omitted_options_use_the_defaults w m b :
  instanceof_Blob b = true →
  typeof (FileReader_prototype w (toString m)) = "function" →
  ∃ s0 rest,
    reliableFileReader w m b NoOptions = Normal s0 ∧
    effects s0 = EStartTimer (VNumber (Int 30000)) :: rest ∧
    tally is_timer_start rest = 0 ∧
    stopWaitingForTimeout s0 = VFunction (StopWaiting (fresh (host_timers w))) ∧
    (fresh (host_timers w) ∉ host_timers w) ∧
    timers s0 = {[fresh (host_timers w)]} ∪ host_timers w.
Proof.
  intros Hb Hm.
  assert (valid w (request_of m b NoOptions)) as Hv by (by split_and!).
  pose proof (start_valid w _ Hv) as Hs. simpl in Hs.
  exists (start w (request_of m b NoOptions)).
  destruct (fileReader_read w _) as [v|e] eqn:Hr.
  - exists [ERead m b]. split; [reflexivity|]. rewrite Hs.
    split_and!; try done. apply is_fresh.
  - exists [ERead m b; EReject e]. split; [reflexivity|]. rewrite Hs.
    split_and!; try done. apply is_fresh.
Qed.

Lemma omitted_options_use_the_defaults_witness :
  ∃ s0 rest,
    reliableFileReader browser readAsDataURL someBlob NoOptions = Normal s0 ∧
    effects s0 = EStartTimer (VNumber (Int 30000)) :: rest ∧
    tally is_timer_start rest = 0 ∧
    stopWaitingForTimeout s0 = VFunction (StopWaiting (fresh (host_timers browser))) ∧
    (fresh (host_timers browser) ∉ host_timers browser) ∧
    timers s0 = {[fresh (host_timers browser)]} ∪ host_timers browser.
Proof.
  apply (omitted_options_use_the_defaults browser readAsDataURL someBlob); reflexivity.
Defined.

(** ** The order of the checks *)


(** ** When starting fails *)





(** ** When the cancellation call does not return *)

Lemma call_stopWaitingForTimeout_promise w s c s' :
  call_stopWaitingForTimeout w s = (c, s') →
  promise s' = promise s ∧ hasTimedOut s' = hasTimedOut s.
Proof.
  rewrite call_stopWaitingForTimeout_eq.
  destruct (stopWaitingForTimeout s) as [| | | | | | |f|]; try (by intros [= _ <-]).
  destruct f; by intros [= _ <-].
Qed.

(** X6: the promise is settled by a completion only after the cancellation
    call has returned.  When the handle is not callable, or throws, the
    exception leaves [onComplete] before [resolve] or [reject] is reached:
    the promise stays pending, [hasTimedOut] stays unset, and the host sees
    the exception uncaught. *)
Theorem failed_cancellation_leaves_the_promise_pending w m b arg s0 sigs sig :
  reliableFileReader w m b arg = Normal s0 →
  let rq := request_of m b arg in
  let s := run w rq sigs s0 in
  promise s = Pending →
  ¬ cancel_returns w s →
  is_completion sig = true →
  let s' := deliver w rq sig s in
  promise s' = Pending ∧
  hasTimedOut s' = false ∧
  settlements (effects s') = [] ∧
  ∃ e s1, call_stopWaitingForTimeout w s = (Throw e, s1) ∧ s' = log (EUncaught e) s1.
Proof.
  intros Hcall rq s Hp Hn Hsig. apply reliableFileReader_start in Hcall as ->.
  fold rq in s, Hp.
  destruct (reachable_pending w rq sigs Hp) as (Hv & Hp0 & Ht & Hi & Hh).
  fold s in Ht, Hi, Hh.
  destruct (call_stopWaitingForTimeout w s) as [[v|e] s1] eqn:Hc.
  { destruct Hn. by exists v, s1. }
  destruct (call_stopWaitingForTimeout_promise w s _ _ Hc) as [Hp1 Ht1].
  assert (∀ result error,
    run_callback (onComplete w rq result error) s = log (EUncaught e) s1) as Hrun.
  { intros result error. unfold run_callback. by rewrite onComplete_early, Hc. }
  assert (deliver w rq sig s = log (EUncaught e) s1) as Hd.
  { destruct sig as [|result|error]; [done| |]; simpl; rewrite Hi; apply Hrun. }
  cbv zeta. rewrite Hd. split_and!.
  - simpl. by rewrite Hp1.
  - simpl. by rewrite Ht1.
  - pose proof (deliver_coherent w rq sig s
                  (run_coherent w rq sigs _ (start_coherent w rq))) as (Hs & _).
    rewrite Hd in Hs. rewrite Hs. simpl. by rewrite Hp1, Hp.
  - by exists e, s1.
Qed.

Lemma failed_cancellation_leaves_the_promise_pending_witness :
  ∃ s0, reliableFileReader browser_no_handle readAsDataURL someBlob
          (Options custom_strategy) = Normal s0 ∧
  let rq := custom_request in
  let s := run browser_no_handle rq [] s0 in
  let s' := deliver browser_no_handle rq (OnLoad (VString "data:")) s in
  promise s' = Pending ∧
  hasTimedOut s' = false ∧
  settlements (effects s') = [] ∧
  ∃ e s1, call_stopWaitingForTimeout browser_no_handle s = (Throw e, s1) ∧
          s' = log (EUncaught e) s1.
Proof.
  eexists. split; [reflexivity|].
  apply (failed_cancellation_leaves_the_promise_pending browser_no_handle
           readAsDataURL someBlob (Options custom_strategy) _ []
           (OnLoad (VString "data:"))).
  - reflexivity.
  - reflexivity.
  - intros (v & s1 & H). vm_compute in H. discriminate.
  - reflexivity.
Defined.

(** ** What each callback adds to the trace *)

Lemma tally_app p l n : tally p (l ++ n) = tally p l + tally p n.
Proof. unfold tally. by rewrite List.filter_app, length_app. Qed.

Lemma tally_none p q n :
  (∀ ev, q ev = true → p ev = false) → forallb q n = true → tally p n = 0.
Proof.
  intros Hpq. induction n as [|ev n IH]; [done|]. simpl.
  intros [Hq Hn]%andb_prop. unfold tally in *. simpl. rewrite (Hpq ev Hq). auto.
Qed.

Lemma delta_refl q s : delta q s s.
Proof. exists []. by rewrite app_nil_r. Qed.

Lemma delta_trans q s1 s2 s3 : delta q s1 s2 → delta q s2 s3 → delta q s1 s3.
Proof.
  intros (n & Hn & Hq) (n' & Hn' & Hq'). exists (n ++ n').
  rewrite Hn', Hn, app_assoc, forallb_app, Hq, Hq'. done.
Qed.

Lemma delta_log q ev s : q ev = true → delta q s (log ev s).
Proof. intros Hq. exists [ev]. simpl. by rewrite Hq. Qed.

Lemma delta_timers q t s : delta q s (assign_timers t s).
Proof. exists []. simpl. by rewrite app_nil_r. Qed.

Lemma delta_settle q p ev s : q ev = true → delta q s (settle p ev s).
Proof.
  intros Hq. unfold settle. destruct (promise s); try apply delta_refl.
  exists [ev]. simpl. by rewrite Hq.
Qed.

Lemma delta_weaken (q q' : effect → bool) s s' :
  (∀ ev, q ev = true → q' ev = true) → delta q s s' → delta q' s s'.
Proof.
  intros Hqq (n & Hn & Hq). exists n. split; [done|].
  apply forallb_forall. intros ev Hin. apply Hqq.
  by apply (proj1 (forallb_forall q n) Hq).
Qed.

Lemma tally_delta p q s s' :
  (∀ ev, q ev = true → p ev = false) → delta q s s' →
  tally p (effects s') = tally p (effects s).
Proof.
  intros Hpq (n & -> & Hq). rewrite tally_app, (tally_none p q n) by done. lia.
Qed.

Lemma tally_log p ev s :
  tally p (effects (log ev s)) = tally p (effects s) + (if p ev then 1 else 0).
Proof. simpl. rewrite tally_app. unfold tally at 2. simpl. by destruct (p ev). Qed.

Lemma tally_settle p pr ev s :
  p ev = false → tally p (effects (settle pr ev s)) = tally p (effects s).
Proof.
  intros Hp. unfold settle. destruct (promise s); [|done..].
  rewrite tally_log, Hp. simpl. lia.
Qed.

Section Deltas.
Context (w : world) (rq : request).

Lemma call_stopWaitingForTimeout_delta s c s' :
  call_stopWaitingForTimeout w s = (c, s') → delta early_effect s s'.
Proof.
  rewrite call_stopWaitingForTimeout_eq.
  destruct (stopWaitingForTimeout s) as [| | | | | | |f|];
    try (intros [= _ <-]; apply delta_refl).
  destruct f; intros [= _ <-]; by apply (delta_log _ ECancelTimer).
Qed.

Lemma call_onFinishAfterTimeout_delta result error s c s' :
  call_onFinishAfterTimeout w rq result error s = (c, s') →
  delta late_effect s s' ∧ promise s' = promise s ∧ timers s' = timers s.
Proof.
  unfold_M. destruct (onFinishAfterTimeout rq) as [| | | | | | |f|];
    try (intros [= _ <-]; split_and!; [apply delta_refl|done..]).
  destruct f; intros [= _ <-]; (split_and!; [by apply delta_log|done..]).
Qed.

(** A completion leaves [hasTimedOut] as it finds it, and adds effects of
    the path it takes. *)
Lemma run_onComplete_delta result error s :
  let s' := run_callback (onComplete w rq result error) s in
  hasTimedOut s' = hasTimedOut s ∧
  delta (if hasTimedOut s then late_effect else early_effect) s s' ∧
  (hasTimedOut s = true → promise s' = promise s ∧ timers s' = timers s).
Proof.
  unfold run_callback. destruct (hasTimedOut s) eqn:Ht.
  - rewrite onComplete_late by done.
    destruct (call_onFinishAfterTimeout w rq result error s) as [[v|e] s1] eqn:Hc;
      pose proof Hc as Hx%call_onFinishAfterTimeout_extends;
      apply call_onFinishAfterTimeout_delta in Hc as (Hd & Hp & Htm);
      destruct Hx as (_ & _ & _ & Hto & _); simpl.
    + by rewrite Hto.
    + rewrite Hto by done. split_and!; try done.
      eapply delta_trans; [done|by apply delta_log].
  - rewrite onComplete_early by done.
    destruct (call_stopWaitingForTimeout w s) as [[v|e] s1] eqn:Hc;
      pose proof Hc as [_ Hto]%call_stopWaitingForTimeout_promise;
      apply call_stopWaitingForTimeout_delta in Hc; simpl.
    + split_and!; [|  |done].
      * unfold settle. destruct (truthy error), (promise s1); simpl; congruence.
      * eapply delta_trans; [done|]. destruct (truthy error); by apply delta_settle.
    + split_and!; [congruence| |done].
      eapply delta_trans; [done|by apply delta_log].
Qed.

(** The timeout callback sets the flag, attempts one abort, and touches the
    promise only if it is still pending. *)
Lemma run_timeoutCallback_facts s :
  let s' := run_callback (timeoutCallback w rq) s in
  hasTimedOut s' = true ∧
  tally is_abort (effects s') = S (tally is_abort (effects s)) ∧
  late_finishes (effects s') = late_finishes (effects s) ∧
  timers s' = timers s ∧
  (promise s ≠ Pending → promise s' = promise s) ∧
  delta from_callback s s'.
Proof.
  assert (hasTimedOut (timed_out rq s) = true ∧
          tally is_abort (effects (timed_out rq s)) = S (tally is_abort (effects s)) ∧
          late_finishes (effects (timed_out rq s)) = late_finishes (effects s) ∧
          timers (timed_out rq s) = timers s ∧
          (promise s ≠ Pending → promise (timed_out rq s) = promise s) ∧
          delta from_callback s (timed_out rq s)) as (H1 & H2 & H3 & H4 & H5 & H6).
  { unfold timed_out. split_and!.
    - unfold settle. simpl. by destruct (promise s).
    - rewrite tally_log, tally_settle by done. simpl. lia.
    - change late_finishes with (tally is_late_finish).
      rewrite tally_log, tally_settle by done. simpl. lia.
    - unfold settle. simpl. by destruct (promise s).
    - intros Hp. unfold settle. simpl. destruct (promise s) eqn:E; simpl; congruence.
    - eapply delta_trans; [|by apply delta_log].
      apply (delta_settle _ _ _ (assign_hasTimedOut true s)). done. }
  cbv zeta. rewrite run_timeoutCallback. destruct (fileReader_abort w _); [done|].
  split_and!; try done.
  - rewrite tally_log, H2. simpl. lia.
  - change late_finishes with (tally is_late_finish) in *.
    rewrite tally_log, H3. simpl. lia.
  - eapply delta_trans; [done|by apply delta_log].
Qed.

(** A [Timeout] either finds no live callback and changes nothing, or runs
    the callback on the current state, the fired timer taken off the table. *)
Lemma deliver_Timeout_cases s :
  deliver w rq Timeout s = s ∨
  ∃ s1, (s1 = s ∨ ∃ id, stopWaitingForTimeout s = VFunction (StopWaiting id) ∧
                        s1 = assign_timers (timers s ∖ {[id]}) s) ∧
        deliver w rq Timeout s = run_callback (timeoutCallback w rq) s1.
Proof.
  simpl.
  assert (∀ id, stopWaitingForTimeout s = VFunction (StopWaiting id) →
    fire_timer id (timeoutCallback w rq) s = s ∨
    ∃ s1, (s1 = s ∨ ∃ id, stopWaitingForTimeout s = VFunction (StopWaiting id) ∧
                          s1 = assign_timers (timers s ∖ {[id]}) s) ∧
          fire_timer id (timeoutCallback w rq) s
          = run_callback (timeoutCallback w rq) s1) as Hfire.
  { intros id Hh. unfold fire_timer. case_bool_decide; [|by left].
    right. exists (assign_timers (timers s ∖ {[id]}) s). split; [|done].
    right. by exists id. }
  assert ((if callbackHandedOver s then run_callback (timeoutCallback w rq) s else s) = s ∨
    ∃ s1, (s1 = s ∨ ∃ id, stopWaitingForTimeout s = VFunction (StopWaiting id) ∧
                          s1 = assign_timers (timers s ∖ {[id]}) s) ∧
          (if callbackHandedOver s then run_callback (timeoutCallback w rq) s else s)
          = run_callback (timeoutCallback w rq) s1) as Hother.
  { destruct (callbackHandedOver s); [|by left]. right. exists s. by split; [left|]. }
  destruct (timeoutFunction rq) as [| | | | | | |[]|]; try done.
  destruct (stopWaitingForTimeout s) as [| | | | | | |[]|] eqn:Hh; try (by left).
  by apply Hfire.
Qed.

Lemma deliver_completion result error s sig :
  sig = OnLoad result ∧ error = VUndefined ∨ sig = OnError error ∧ result = VUndefined →
  deliver w rq sig s =
  if handlersInstalled s then run_callback (onComplete w rq result error) s else s.
Proof. by intros [[-> ->]|[-> ->]]. Qed.

Lemma deliver_delta sig s : delta from_callback s (deliver w rq sig s).
Proof.
  assert (∀ result error,
    delta from_callback s (run_callback (onComplete w rq result error) s)) as Hc.
  { intros result error.
    destruct (run_onComplete_delta result error s) as (_ & Hd & _).
    eapply delta_weaken; [|done]. by destruct (hasTimedOut s); intros []. }
  destruct sig as [|result|error].
  - destruct (deliver_Timeout_cases s) as [->|(s1 & Hs1 & ->)]; [apply delta_refl|].
    eapply delta_trans; [|apply run_timeoutCallback_facts].
    destruct Hs1 as [->|(id & _ & ->)]; [apply delta_refl|apply delta_timers].
  - simpl. destruct (handlersInstalled s); [apply Hc|apply delta_refl].
  - simpl. destruct (handlersInstalled s); [apply Hc|apply delta_refl].
Qed.

Lemma run_delta sigs s : delta from_callback s (run w rq sigs s).
Proof.
  revert s. induction sigs as [|sig sigs IH]; intros s; simpl; [apply delta_refl|].
  eapply delta_trans; [apply deliver_delta|apply IH].
Qed.

Lemma deliver_timely sig s : timely s → timely (deliver w rq sig s).
Proof.
  intros [Ha Hl].
  assert (∀ result error, timely (run_callback (onComplete w rq result error) s)) as Hc.
  { intros result error.
    destruct (run_onComplete_delta result error s) as (Hto & Hd & _).
    assert (∀ ev, (if hasTimedOut s then late_effect else early_effect) ev = true →
                  is_abort ev = false) as Hq
      by (by destruct (hasTimedOut s); intros []).
    split.
    - by rewrite Hto, (tally_delta is_abort _ s _ Hq Hd).
    - rewrite Hto. intros Hf. rewrite Hf in Hd.
      assert (∀ ev, early_effect ev = true → is_late_finish ev = false) as Hq'
        by (by intros []).
      change late_finishes with (tally is_late_finish).
      rewrite (tally_delta is_late_finish _ s _ Hq' Hd). by apply Hl. }
  destruct sig as [|result|error].
  - destruct (deliver_Timeout_cases s) as [->|(s1 & Hs1 & ->)]; [done|].
    destruct (run_timeoutCallback_facts s1) as (H1 & H2 & _).
    split; [|by rewrite H1]. rewrite H1, H2. split; [lia|done].
  - simpl. destruct (handlersInstalled s); [apply Hc|done].
  - simpl. destruct (handlersInstalled s); [apply Hc|done].
Qed.

Lemma run_timely sigs s : timely s → timely (run w rq sigs s).
Proof.
  revert s. induction sigs as [|sig sigs IH]; intros s Hs; simpl; [done|].
  apply IH. by apply deliver_timely.
Qed.

(** The trace the call itself leaves: the timer is started before the read
    is begun, each at most once, and nothing else but a rejection. *)
Lemma start_trace :
  ∃ rest, (rest = [] ∨ ∃ e, rest = [EReject e]) ∧
    (effects (start w rq) = rest ∨
     effects (start w rq) = EStartTimer (timeoutMs rq) :: rest ∨
     effects (start w rq)
     = EStartTimer (timeoutMs rq) :: ERead (method rq) (blob rq) :: rest).
Proof.
  destruct (valid_or_failure w rq) as [Hv|(err & Hf)].
  - rewrite start_valid by done. simpl. unfold settle.
    repeat case_match; simpl;
      first [ by exists []; split; [left|right; right]
            | by eexists [EReject _]; split; [right; eexists|right; right]
            | by eexists [EReject _]; split; [right; eexists|right; left] ].
  - rewrite (start_invalid _ _ _ Hf). eexists [EReject _]. split; [by eauto|by left].
Qed.

Lemma start_timely : timely (start w rq).
Proof.
  destruct start_trace as (rest & Hrest & He).
  assert (hasTimedOut (start w rq) = false) as Ht.
  { destruct (valid_or_failure w rq) as [Hv|(err & Hf)].
    - rewrite start_valid by done. simpl. unfold settle. repeat case_match; done.
    - by rewrite (start_invalid _ _ _ Hf). }
  split; [rewrite Ht|intros _];
    destruct Hrest as [->|[e ->]], He as [->|[->| ->]]; try done;
    unfold tally; simpl; split; (done || lia).
Qed.

End Deltas.

(** ** One timer, one read *)

(** X7: a call starts the timer strategy at most once and begins at most one
    read, the timer first; no signal, however many arrive, starts either
    again: everything a signal adds to the trace comes from a callback. *)
Theorem one_timer_and_one_read_per_call w m b arg s0 sigs :
  reliableFileReader w m b arg = Normal s0 →
  let rq := request_of m b arg in
  let s := run w rq sigs s0 in
  delta from_callback s0 s ∧
  tally is_timer_start (effects s) = tally is_timer_start (effects s0) ∧
  tally is_read (effects s) = tally is_read (effects s0) ∧
  tally is_read (effects s) ≤ tally is_timer_start (effects s) ∧
  tally is_timer_start (effects s) ≤ 1 ∧
  (tally is_read (effects s) = 1 →
   ∃ rest, effects s = EStartTimer (timeoutMs rq) :: ERead (method rq) (blob rq) :: rest).
Proof.
  intros Hcall rq s. apply reliableFileReader_start in Hcall as ->. fold rq in s.
  pose proof (run_delta w rq sigs (start w rq)) as Hd. fold s in Hd.
  assert (∀ ev, from_callback ev = true → is_timer_start ev = false) as Hq1
    by (by intros []).
  assert (∀ ev, from_callback ev = true → is_read ev = false) as Hq2
    by (by intros []).
  rewrite (tally_delta is_timer_start _ _ _ Hq1 Hd), (tally_delta is_read _ _ _ Hq2 Hd).
  destruct Hd as (new & Hnew & _). rewrite Hnew.
  destruct (start_trace w rq) as (rest & Hrest & He).
  split_and!; try done.
  - exists new. split; [done|]. by destruct (run_delta w rq sigs (start w rq))
      as (new' & Hnew' & Hq); fold s in Hnew'; rewrite Hnew in Hnew';
      apply app_inv_head in Hnew' as ->.
  - destruct Hrest as [->|[e ->]], He as [->|[->| ->]]; unfold tally; simpl; lia.
  - destruct Hrest as [->|[e ->]], He as [->|[->| ->]]; unfold tally; simpl; lia.
  - destruct Hrest as [->|[e ->]], He as [->|[->| ->]]; unfold tally; simpl;
      try lia; intros _; eexists; reflexivity.
Qed.

Lemma one_timer_and_one_read_per_call_witness :
  ∃ s0, reliableFileReader browser readAsDataURL someBlob NoOptions = Normal s0 ∧
  let rq := default_request in
  let s := run browser rq
             [OnLoad (VString "data:"); OnError (VObject "[object ProgressEvent]"); Timeout]
             s0 in
  delta from_callback s0 s ∧
  tally is_timer_start (effects s) = tally is_timer_start (effects s0) ∧
  tally is_read (effects s) = tally is_read (effects s0) ∧
  tally is_read (effects s) ≤ tally is_timer_start (effects s) ∧
  tally is_timer_start (effects s) ≤ 1 ∧
  (tally is_read (effects s) = 1 →
   ∃ rest, effects s = EStartTimer (timeoutMs rq) :: ERead (method rq) (blob rq) :: rest).
Proof.
  eexists. split; [reflexivity|].
  apply (one_timer_and_one_read_per_call browser readAsDataURL someBlob NoOptions).
  reflexivity.
Defined.

(** ** Nothing of the timeout path happens before the timeout *)

(** X8: abort is attempted, and the late-finish callback is called, only once
    the timeout callback has run: in every reachable state [hasTimedOut] is
    set exactly when the trace holds an abort, a trace with a late-finish
    notification has it set, and once set it stays set. *)
Theorem abort_and_late_finish_only_after_timeout w m b arg s0 sigs :
  reliableFileReader w m b arg = Normal s0 →
  let rq := request_of m b arg in
  let s := run w rq sigs s0 in
  (hasTimedOut s = true ↔ 0 < tally is_abort (effects s)) ∧
  (0 < late_finishes (effects s) → hasTimedOut s = true) ∧
  (hasTimedOut s = true → ∀ more, hasTimedOut (run w rq more s) = true).
Proof.
  intros Hcall rq s. apply reliableFileReader_start in Hcall as ->. fold rq in s.
  destruct (run_timely w rq sigs _ (start_timely w rq)) as [Ha Hl]. fold s in Ha, Hl.
  split_and!; [done| |].
  - intros Hpos. destruct (hasTimedOut s); [done|]. rewrite Hl in Hpos by done. lia.
  - intros Ht more. by apply (run_extends w rq more s).
Qed.

Lemma abort_and_late_finish_only_after_timeout_witness :
  ∃ s0, reliableFileReader browser readAsDataURL someBlob (Options custom_strategy)
        = Normal s0 ∧
  let rq := custom_request in
  let s := run browser rq [Timeout; OnLoad (VString "data:")] s0 in
  (hasTimedOut s = true ↔ 0 < tally is_abort (effects s)) ∧
  (0 < late_finishes (effects s) → hasTimedOut s = true) ∧
  (hasTimedOut s = true → ∀ more, hasTimedOut (run browser rq more s) = true).
Proof.
  eexists. split; [reflexivity|].
  apply (abort_and_late_finish_only_after_timeout browser readAsDataURL someBlob
           (Options custom_strategy)).
  reflexivity.
Defined.

(** ** Every late notification is passed on *)

Lemma late_step w rq sig s :
  typeof (onFinishAfterTimeout rq) = "function" →
  hasTimedOut s = true →
  handlersInstalled s = true →
  let s' := deliver w rq sig s in
  hasTimedOut s' = true ∧
  handlersInstalled s' = true ∧
  late_finishes (effects s')
  = late_finishes (effects s) + (if is_completion sig then 1 else 0).
Proof.
  intros Hf Ht Hi.
  destruct (deliver_extends w rq sig s) as (_ & Hi' & _ & Ht' & _).
  cbv zeta. rewrite Hi', Hi, Ht' by done. split_and!; try done.
  change late_finishes with (tally is_late_finish).
  assert (∀ result error,
    tally is_late_finish (effects (run_callback (onComplete w rq result error) s))
    = tally is_late_finish (effects s) + 1) as Hc.
  { intros result error.
    destruct (late_completion w rq result error s Hf Ht) as [->|[e ->]];
      rewrite !tally_log; simpl; lia. }
  destruct sig as [|result|error]; simpl is_completion; cbv iota.
  - destruct (deliver_Timeout_cases w rq s) as [->|(s1 & Hs1 & ->)]; [lia|].
    destruct (run_timeoutCallback_facts w rq s1) as (_ & _ & Hl & _).
    change late_finishes with (tally is_late_finish) in Hl. rewrite Hl.
    destruct Hs1 as [->|(id & _ & ->)]; simpl; lia.
  - simpl. rewrite Hi. apply Hc.
  - simpl. rewrite Hi. apply Hc.
Qed.

(** X9: after the timeout the late-finish callback is called once for each
    completion notification, however many the reader fires: over any further
    sequence of signals the number of calls grows by the number of
    completion notifications in it. *)
Theorem every_late_completion_is_reported w m b arg s0 sigs more :
  reliableFileReader w m b arg = Normal s0 →
  let rq := request_of m b arg in
  let s := run w rq sigs s0 in
  hasTimedOut s = true →
  handlersInstalled s = true →
  late_finishes (effects (run w rq more s))
  = late_finishes (effects s) + completions more.
Proof.
  intros Hcall rq s Ht Hi. apply reliableFileReader_start in Hcall as ->.
  fold rq in s.
  destruct (run_extends w rq sigs (start w rq)) as (_ & Hi0 & _).
  fold s in Hi0. rewrite Hi in Hi0.
  assert (valid w rq) as (_ & _ & _ & Hf & _) by (by apply start_wired; left).
  clearbody s. clear Hi0. revert s Ht Hi.
  induction more as [|sig more IH]; intros s Ht Hi; simpl.
  - unfold completions. simpl. lia.
  - destruct (late_step w rq sig s Hf Ht Hi) as (Ht' & Hi' & Hl).
    rewrite IH, Hl by done. unfold completions. simpl.
    destruct (is_completion sig); simpl; lia.
Qed.

Lemma every_late_completion_is_reported_witness :
  ∃ s0, reliableFileReader browser readAsDataURL someBlob (Options custom_strategy)
        = Normal s0 ∧
  let rq := custom_request in
  let s := run browser rq [Timeout] s0 in
  let more := [OnLoad (VString "data:"); OnError (VObject "[object ProgressEvent]")] in
  late_finishes (effects (run browser rq more s))
  = late_finishes (effects s) + completions more.
Proof.
  eexists. split; [reflexivity|].
  apply (every_late_completion_is_reported browser readAsDataURL someBlob
           (Options custom_strategy) _ [Timeout]); reflexivity.
Defined.

(** ** The first signal decides *)

(** X10: when the call has left the promise pending and the cancellation
    handle returns when called, the first signal to arrive decides how the
    promise settles, and no later signal changes that: a timeout rejects
    with the timeout error, a success fulfils with its result, a failure
    rejects with its error if that is truthy. *)
Theorem first_signal_decides w m b arg s0 sig rest :
  reliableFileReader w m b arg = Normal s0 →
  let rq := request_of m b arg in
  promise s0 = Pending →
  cancel_returns w s0 →
  promise (run w rq (sig :: rest) s0) = outcome_of rq sig.
Proof.
  intros Hcall rq Hp (v & s1 & Hc). apply reliableFileReader_start in Hcall as ->.
  fold rq in Hp, Hc. fold rq.
  destruct (start_pending w rq Hp) as (Hv & Ht & Hi & _).
  assert (promise (deliver w rq sig (start w rq)) = outcome_of rq sig) as Hd.
  { destruct sig as [|result|error].
    - destruct (start_timeout w rq Hp) as (s2 & -> & Hp2 & _).
      destruct (timed_out_pending rq s2 Hp2) as (_ & Hr & _).
      rewrite run_timeoutCallback. by destruct (fileReader_abort w _).
    - simpl. rewrite Hi.
      by destruct (early_completion w rq result VUndefined _ v s1 Hi Ht Hp Hc).
    - simpl. rewrite Hi.
      by destruct (early_completion w rq VUndefined error _ v s1 Hi Ht Hp Hc). }
  change (run w rq (sig :: rest) (start w rq))
    with (run w rq rest (deliver w rq sig (start w rq))).
  destruct (run_extends w rq rest (deliver w rq sig (start w rq)))
    as (_ & _ & _ & _ & Hk & _).
  rewrite Hk; rewrite Hd; [done|]. destruct sig; simpl; [done..|by case_match].
Qed.

Lemma first_signal_decides_witness :
  ∃ s0, reliableFileReader browser readAsDataURL someBlob NoOptions = Normal s0 ∧
  promise (run browser default_request
             [OnError (VObject "[object ProgressEvent]"); OnLoad (VString "data:"); Timeout]
             s0)
  = outcome_of default_request (OnError (VObject "[object ProgressEvent]")).
Proof.
  eexists. split; [reflexivity|].
  apply (first_signal_decides browser readAsDataURL someBlob NoOptions).
  - reflexivity.
  - reflexivity.
  - eexists _, _. reflexivity.
Defined.

(** ** The host's timers under the built-in strategy *)

Lemma run_onComplete_timers w rq result error id s :
  stopWaitingForTimeout s = VFunction (StopWaiting id) →
  timers (run_callback (onComplete w rq result error) s)
  = if hasTimedOut s then timers s else timers s ∖ {[id]}.
Proof.
  intros Hh. destruct (hasTimedOut s) eqn:Ht.
  - by destruct (run_onComplete_delta w rq result error s) as (_ & _ & Hk);
      rewrite Ht in Hk; destruct Hk as [_ Hk].
  - unfold run_callback.
    rewrite onComplete_early, call_stopWaitingForTimeout_eq, Hh by done.
    unfold settle. simpl. destruct (truthy error), (promise s); done.
Qed.

(** With the built-in strategy, one step from a state that holds the
    request's handle leaves the table as it is or takes the request's own
    timer off it. *)
Lemma default_step_timers w rq sig id s :
  timeoutFunction rq = VFunction SimpleTimeout →
  stopWaitingForTimeout s = VFunction (StopWaiting id) →
  handlersInstalled s = true →
  timers (deliver w rq sig s)
  = if is_completion sig && hasTimedOut s then timers s else timers s ∖ {[id]}.
Proof.
  intros Hd Hh Hi. destruct sig as [|result|error]; simpl.
  - rewrite Hd, Hh. unfold fire_timer. case_bool_decide as Hin.
    + unfold run_callback. cbv [mbind M_bind clearTimeout get modify].
      rewrite timeoutCallback_eq. destruct (fileReader_abort w _); simpl;
        unfold settle; simpl; by destruct (promise s).
    + by rewrite cleared_inactive.
  - rewrite Hi. apply run_onComplete_timers. done.
  - rewrite Hi. apply run_onComplete_timers. done.
Qed.

(** X11: with the built-in strategy a request adds one timer of its own to
    the host's table and never disturbs the others: right after the call
    the table holds the timers that were active plus the new one, and as
    soon as any signal has been handled, and for good, it is again the table
    the call found. *)
Theorem own_timer_is_released_by_the_first_signal w m b arg s0 sig rest :
  reliableFileReader w m b arg = Normal s0 →
  let rq := request_of m b arg in
  valid w rq →
  timeoutFunction rq = VFunction SimpleTimeout →
  (fresh (host_timers w) ∉ host_timers w) ∧
  timers s0 = {[fresh (host_timers w)]} ∪ host_timers w ∧
  timers (run w rq (sig :: rest) s0) = host_timers w.
Proof.
  intros Hcall rq Hv Hd. apply reliableFileReader_start in Hcall as ->. fold rq.
  set (id := fresh (host_timers w)).
  assert (id ∉ host_timers w) as Hfresh by apply is_fresh.
  assert (({[id]} ∪ host_timers w) ∖ {[id]} = host_timers w) as Hclear.
  { rewrite difference_union_distr_l_L, difference_diag_L, (left_id_L ∅ (∪)).
    by apply cleared_inactive. }
  assert (stopWaitingForTimeout (start w rq) = VFunction (StopWaiting id) ∧
          handlersInstalled (start w rq) = true ∧
          hasTimedOut (start w rq) = false ∧
          timers (start w rq) = {[id]} ∪ host_timers w) as (Hh & Hi & Ht & Htm).
  { rewrite start_valid by done. rewrite Hd. simpl. unfold settle.
    by repeat case_match. }
  split_and!; [done|done|].
  change (run w rq (sig :: rest) (start w rq))
    with (run w rq rest (deliver w rq sig (start w rq))).
  assert (∀ s, stopWaitingForTimeout s = VFunction (StopWaiting id) →
               handlersInstalled s = true → timers s = host_timers w →
               timers (run w rq rest s) = host_timers w) as Hrest.
  { induction rest as [|sig' rest IH]; intros s Hhs His Hts; [done|]. simpl.
    destruct (deliver_extends w rq sig' s) as (Hh' & Hi' & _).
    apply IH; [by rewrite Hh'|by rewrite Hi'|].
    rewrite (default_step_timers w rq sig' id s) by done.
    rewrite Hts. destruct (_ && _); [done|by apply cleared_inactive]. }
  destruct (deliver_extends w rq sig (start w rq)) as (Hh' & Hi' & _).
  apply Hrest; [by rewrite Hh'|by rewrite Hi'|].
  rewrite (default_step_timers w rq sig id _) by done.
  by rewrite Ht, andb_false_r, Htm.
Qed.

Lemma own_timer_is_released_by_the_first_signal_witness :
  ∃ s0, reliableFileReader browser readAsDataURL someBlob NoOptions = Normal s0 ∧
  (fresh (host_timers browser) ∉ host_timers browser) ∧
  timers s0 = {[fresh (host_timers browser)]} ∪ host_timers browser ∧
  timers (run browser default_request
            (OnLoad (VString "data:") :: [Timeout; OnError VNull]) s0)
  = host_timers browser.
Proof.
  eexists. split; [reflexivity|].
  apply (own_timer_is_released_by_the_first_signal browser readAsDataURL someBlob
           NoOptions).
  - reflexivity.
  - by split_and!.
  - reflexivity.
Defined.

(** ** [simpleTimeout] and [stopWaiting] as a pair *)

(** X12: [simpleTimeout] registers a timer under an id that was not active,
    leaving every other timer as it was, and the function it returns undoes
    exactly that: called right away it gives back the state before
    [simpleTimeout], and called at any time it leaves every other timer
    alone. *)
Theorem stopWaiting_undoes_simpleTimeout s :
  ∃ id s1,
    simpleTimeout s = (Normal (VFunction (StopWaiting id)), s1) ∧
    (id ∉ timers s) ∧
    timers s1 = {[id]} ∪ timers s ∧
    stopWaiting id s1 = (Normal VUndefined, s) ∧
    ∀ s2 k, k ≠ id → k ∈ timers (snd (stopWaiting id s2)) ↔ k ∈ timers s2.
Proof.
  exists (fresh (timers s)), (assign_timers ({[fresh (timers s)]} ∪ timers s) s).
  assert (fresh (timers s) ∉ timers s) as Hfresh by apply is_fresh.
  split_and!; try done.
  - unfold_M. f_equal. destruct s as [hto h p t cho hi tr]. simpl in *.
    unfold assign_timers. simpl. f_equal.
    rewrite difference_union_distr_l_L, difference_diag_L, (left_id_L ∅ (∪)).
    by apply cleared_inactive.
  - intros s2 k Hk. rewrite stopWaiting_timers, elem_of_difference, elem_of_singleton.
    tauto.
Qed.

(** ** A timer that fires although it was cancelled *)

(** X13: the timeout callback has no guard of its own.  When a caller's
    strategy invokes it, be it after a completion or a second time, it sets
    [hasTimedOut] and attempts another abort; a promise that is already
    settled keeps its state, the cancellation handle is not called, and a
    completion that arrives afterwards, success or failure, goes to the
    late-finish callback. *)
Theorem late_timeout_still_aborts w rq s :
  timeoutFunction rq ≠ VFunction SimpleTimeout →
  callbackHandedOver s = true →
  let s' := deliver w rq Timeout s in
  hasTimedOut s' = true ∧
  tally is_abort (effects s') = S (tally is_abort (effects s)) ∧
  cancellations (effects s') = cancellations (effects s) ∧
  timers s' = timers s ∧
  (promise s ≠ Pending → promise s' = promise s) ∧
  (handlersInstalled s = true →
   typeof (onFinishAfterTimeout rq) = "function" →
   ∀ sig, is_completion sig = true →
          late_finishes (effects (deliver w rq sig s'))
          = S (late_finishes (effects s'))).
Proof.
  intros Hn Hc.
  assert (deliver w rq Timeout s = run_callback (timeoutCallback w rq) s) as Hd.
  { simpl. rewrite Hc. destruct (timeoutFunction rq) as [| | | | | | |[]|]; try done;
      by destruct (stopWaitingForTimeout s) as [| | | | | | |[]|]. }
  cbv zeta.
  destruct (run_timeoutCallback_facts w rq s) as (H1 & H2 & H3 & H4 & H5 & H6).
  pose proof (deliver_cancellations w rq Timeout s) as Hcan.
  unfold cancels in Hcan. simpl is_completion in Hcan. simpl andb in Hcan.
  rewrite Hd in *. split_and!; try done.
  - lia.
  - intros Hi Hf sig Hsig.
    destruct (deliver_extends w rq Timeout s) as (_ & Hi' & _).
    rewrite Hd in Hi'. rewrite Hi in Hi'.
    destruct (late_step w rq sig _ Hf H1 Hi') as (_ & _ & ->).
    rewrite Hsig. lia.
Qed.

Lemma late_timeout_still_aborts_witness :
  let s := run browser custom_request [OnLoad (VString "data:")]
             (start browser custom_request) in
  let s' := deliver browser custom_request Timeout s in
  hasTimedOut s' = true ∧
  tally is_abort (effects s') = S (tally is_abort (effects s)) ∧
  cancellations (effects s') = cancellations (effects s) ∧
  timers s' = timers s ∧
  (promise s ≠ Pending → promise s' = promise s) ∧
  (handlersInstalled s = true →
   typeof (onFinishAfterTimeout custom_request) = "function" →
   ∀ sig, is_completion sig = true →
          late_finishes (effects (deliver browser custom_request sig s'))
          = S (late_finishes (effects s'))).
Proof.
  apply (late_timeout_still_aborts browser custom_request
           (run browser custom_request [OnLoad (VString "data:")]
              (start browser custom_request))).
  - discriminate.
  - reflexivity.
Defined.

(** ** When the call leaves the promise pending *)

(** X14: the call never fulfils the promise it returns: the promise is
    pending or already rejected.  If it is pending, then the five checks
    passed, the timer strategy returned, and what it returned is kept as the
    cancellation handle, the handlers are installed, the reader's method was
    called and returned, and [hasTimedOut] is unset. *)
Theorem call_leaves_the_promise_pending_or_rejected w m b arg s0 :
  reliableFileReader w m b arg = Normal s0 →
  let rq := request_of m b arg in
  (promise s0 = Pending ∨ ∃ e, promise s0 = Rejected e) ∧
  (promise s0 = Pending →
   valid w rq ∧
   (timeoutFunction rq = VFunction SimpleTimeout ∨
    caller_timeoutFunction w [EStartTimer (timeoutMs rq)]
    = Normal (stopWaitingForTimeout s0)) ∧
   (∃ v, fileReader_read w [EStartTimer (timeoutMs rq); ERead (method rq) (blob rq)]
         = Normal v) ∧
   hasTimedOut s0 = false ∧
   handlersInstalled s0 = true ∧
   effects s0 = [EStartTimer (timeoutMs rq); ERead (method rq) (blob rq)]).
Proof.
  intros Hcall rq. apply reliableFileReader_start in Hcall as ->. fold rq.
  split.
  - destruct (valid_or_failure w rq) as [Hv|(err & Hf)].
    + rewrite start_valid by done. simpl. unfold settle.
      repeat case_match; simpl; eauto.
    + rewrite (start_invalid _ _ _ Hf). simpl. eauto.
  - intros Hp. destruct (start_pending w rq Hp) as (Hv & Ht & Hi & _ & He & _).
    split_and!; try done.
    + revert Hp. rewrite start_valid by done. simpl.
      destruct (caller_timeoutFunction w _) as [h|e1] eqn:Hc;
        destruct (fileReader_read w _) as [v|e2] eqn:Hr;
        destruct (timeoutFunction rq) as [| | | | | | |[]|] eqn:Hd; simpl;
        intros Hp; try done; eauto.
    + revert Hp. rewrite start_valid by done. simpl.
      destruct (caller_timeoutFunction w _) as [h|e1] eqn:Hc;
        destruct (fileReader_read w _) as [v|e2] eqn:Hr;
        destruct (timeoutFunction rq) as [| | | | | | |[]|] eqn:Hd; simpl;
        intros Hp; try done; eauto.
Qed.

Lemma call_leaves_the_promise_pending_or_rejected_witness :
  ∃ s0, reliableFileReader browser readAsDataURL someBlob (Options custom_strategy)
        = Normal s0 ∧
  let rq := custom_request in
  (promise s0 = Pending ∨ ∃ e, promise s0 = Rejected e) ∧
  (promise s0 = Pending →
   valid browser rq ∧
   (timeoutFunction rq = VFunction SimpleTimeout ∨
    caller_timeoutFunction browser [EStartTimer (timeoutMs rq)]
    = Normal (stopWaitingForTimeout s0)) ∧
   (∃ v, fileReader_read browser [EStartTimer (timeoutMs rq); ERead (method rq) (blob rq)]
         = Normal v) ∧
   hasTimedOut s0 = false ∧
   handlersInstalled s0 = true ∧
   effects s0 = [EStartTimer (timeoutMs rq); ERead (method rq) (blob rq)]).
Proof.
  eexists. split; [reflexivity|].
  apply (call_leaves_the_promise_pending_or_rejected browser
           readAsDataURL someBlob (Options custom_strategy)).
  reflexivity.
Defined.
